(** * Intent detection and negation resolution (intents.py)

    A shallow embedding of [IntentParser] and of the tables it reads,
    followed by the properties of the detection pipeline.

    Python [str] values are modelled as sequences of Latin-1 code points:
    a character is an [ascii] (code point 0..255), a text is a [list ascii],
    and string literals of the source are [string]s turned into texts by
    [chars].  On this alphabet [str.lower], [str.split], the class [\w] and
    case-insensitive comparison are the tables written out below. *)

From Stdlib Require Import ZArith NArith Ascii String.
From stdpp Require Import base option list gmap sets strings.

(** ** Characters and texts *)

Abbreviation text := (list ascii).

Definition chars (s : string) : text := list_ascii_of_string s.
Definition str (t : text) : string := string_of_list_ascii t.

Definition code (c : ascii) : N := N_of_ascii c.

Definition in_range (lo hi : N) (c : ascii) : bool :=
  ((lo <=? code c) && (code c <=? hi))%N.

(** [str.isspace] on Latin-1: the separators of [str.split()]. *)
Definition is_space (c : ascii) : bool :=
  in_range 9 13 c || in_range 28 32 c
  || (code c =? 133)%N || (code c =? 160)%N.

(** The class [\w] of a Unicode pattern, on Latin-1: alphanumerics
    (letters, digits, superscripts and fractions) and the underscore. *)
Definition is_word (c : ascii) : bool :=
  in_range 48 57 c || in_range 65 90 c || (code c =? 95)%N
  || in_range 97 122 c
  || (code c =? 170)%N || in_range 178 179 c || (code c =? 181)%N
  || in_range 185 186 c || in_range 188 190 c
  || in_range 192 214 c || in_range 216 246 c || in_range 248 255 c.

Definition is_upper (c : ascii) : bool :=
  in_range 65 90 c || in_range 192 214 c || in_range 216 222 c.

Definition lower_char (c : ascii) : ascii :=
  if is_upper c then ascii_of_N (code c + 32) else c.

(** [str.lower()] *)
Definition lower (t : text) : text := lower_char <$> t.

(** Title case of the first character, as [str.capitalize] applies it
    (Python 3.8 and later).
    The sharp s becomes "Ss".  The capitals of the micro sign and of
    y-diaeresis lie outside Latin-1 (U+039C, U+0178); the model keeps these
    two characters as they are. *)
Definition title_char (c : ascii) : text :=
  if in_range 97 122 c || in_range 224 246 c || in_range 248 254 c
  then [ascii_of_N (code c - 32)]
  else if (code c =? 223)%N then chars "Ss"
  else [c].

(** [str.capitalize()] *)
Definition capitalize (t : text) : text :=
  match t with
  | [] => []
  | c :: rest => title_char c ++ lower rest
  end.

(** [str.split()] with no argument: the maximal runs of characters that
    are not whitespace.  [tok] is the run being read. *)
Fixpoint split_from (tok : text) (t : text) : list text :=
  match t with
  | [] => match tok with [] => [] | _ => [tok] end
  | c :: t' =>
      if is_space c
      then match tok with
           | [] => split_from [] t'
           | _ => tok :: split_from [] t'
           end
      else split_from (tok ++ [c]) t'
  end.

Definition split (t : text) : list text := split_from [] t.

(** The slice [t[:k]], for [k] of either sign. *)
Definition slice_to (k : Z) (t : text) : text :=
  if (k <? 0)%Z then take (Z.to_nat (Z.of_nat (length t) + k)) t
  else take (Z.to_nat k) t.

(** The slice [l[-n:]] for a positive [n]: the last [n] elements, or all of
    [l] when it has fewer. *)
Definition last_n {A} (n : nat) (l : list A) : list A :=
  drop (length l - n)%nat l.

(** [needle in hay] on strings: containment of a contiguous run. *)
Fixpoint starts_with (needle hay : text) : bool :=
  match needle, hay with
  | [], _ => true
  | _ :: _, [] => false
  | p :: needle', c :: hay' => bool_decide (c = p) && starts_with needle' hay'
  end.

Fixpoint contains (needle hay : text) : bool :=
  starts_with needle hay
  || match hay with
     | [] => false
     | _ :: hay' => contains needle hay'
     end.

(** ** The regular expressions of the module

    Every pattern the module builds has the shape [\b(w1|...|wn)\b], where
    each [wi] is matched literally: [re.escape] makes a keyword literal, the
    action verbs contain only letters and spaces, and the alternatives of
    [NEGATION_PATTERNS] are letters and an escaped apostrophe.  A pattern is
    therefore the list of its alternatives. *)

Definition pattern := list string.

(** Comparison of a subject character with a pattern character; with
    [re.IGNORECASE] both are lowered. *)
Definition char_eq (ignorecase : bool) (c p : ascii) : bool :=
  if ignorecase then bool_decide (lower_char c = lower_char p)
  else bool_decide (c = p).

Definition word_opt (c : option ascii) : bool := from_option is_word false c.

(** [\b] between the character before the position ([None] at the start of
    the subject) and the text that follows it. *)
Definition boundary (prev : option ascii) (rest : text) : bool :=
  xorb (word_opt prev) (word_opt (head rest)).

(** Literal match of [lit] at the head of the subject: the last character
    consumed (or [prev] when nothing was) and what follows the match. *)
Fixpoint lit_match (ignorecase : bool) (lit : text) (prev : option ascii)
    (t : text) : option (option ascii * text) :=
  match lit with
  | [] => Some (prev, t)
  | p :: lit' =>
      match t with
      | [] => None
      | c :: t' =>
          if char_eq ignorecase c p
          then lit_match ignorecase lit' (Some c) t'
          else None
      end
  end.

(** The alternatives in order, backtracking into the next one when the
    closing [\b] fails: the length of the match found. *)
Fixpoint alt_match (ignorecase : bool) (alts : pattern)
    (prev : option ascii) (t : text) : option nat :=
  match alts with
  | [] => None
  | w :: alts' =>
      match lit_match ignorecase (chars w) prev t with
      | Some (prev', rest) =>
          if boundary prev' rest then Some (length (chars w))
          else alt_match ignorecase alts' prev t
      | None => alt_match ignorecase alts' prev t
      end
  end.

(** The whole pattern anchored at the current position. *)
Definition match_here (ignorecase : bool) (alts : pattern)
    (prev : option ascii) (t : text) : option nat :=
  if boundary prev t then alt_match ignorecase alts prev t else None.

(** [re.search]: is there a match at some position? *)
Fixpoint search_from (ignorecase : bool) (alts : pattern)
    (prev : option ascii) (t : text) : bool :=
  match match_here ignorecase alts prev t with
  | Some _ => true
  | None =>
      match t with
      | [] => false
      | c :: t' => search_from ignorecase alts (Some c) t'
      end
  end.

Definition re_search (ignorecase : bool) (alts : pattern) (t : text) : bool :=
  search_from ignorecase alts None t.

(** [re.finditer], as the list of [match.start()]: the matches from left to
    right, none starting inside the previous one.  [skip] counts the
    characters of the last match still to pass.  The end of the text is a
    position too: an empty match can stand there. *)
Fixpoint finditer_from (ignorecase : bool) (alts : pattern) (skip pos : nat)
    (prev : option ascii) (t : text) : list nat :=
  match t with
  | [] =>
      match skip with
      | S _ => []
      | O => if match_here ignorecase alts prev [] is Some _ then [pos] else []
      end
  | c :: t' =>
      match skip with
      | S k => finditer_from ignorecase alts k (S pos) (Some c) t'
      | O =>
          match match_here ignorecase alts prev t with
          | Some len =>
              pos :: finditer_from ignorecase alts (len - 1) (S pos) (Some c) t'
          | None => finditer_from ignorecase alts 0 (S pos) (Some c) t'
          end
      end
  end.

Definition re_finditer (ignorecase : bool) (alts : pattern) (t : text)
    : list nat :=
  finditer_from ignorecase alts 0 0 None t.


(** ** The static tables *)

(** A value of [INTENT_CATEGORIES]: the keywords of a category and, per
    cloud, the resource types it maps to. *)
Record CategoryData := {
  keywords : list string;
  cloud_resources : list (string * list string)
}.

(** The tables are Python dicts read in insertion order; they are kept as
    lists of pairs in the order of the source. *)
Definition INTENT_CATEGORIES : list (string * CategoryData) := [
  ("networking", {|
     keywords := ["vpc"; "vnet"; "network"; "subnet"; "gateway";
                  "load balancer"; "alb"; "nlb"; "vpn"; "dns"; "route";
                  "peering"];
     cloud_resources := [
       ("aws", ["vpc"; "subnet"; "internet_gateway"; "nat_gateway";
                "route_table"; "elastic_load_balancer";
                "application_load_balancer"]);
       ("azure", ["virtual_network"; "subnet"; "vpn_gateway";
                  "load_balancer"]);
       ("gcp", ["compute_network"; "compute_subnetwork";
                "compute_vpn_gateway"; "compute_forwarding_rule"])] |});
  ("compute", {|
     keywords := ["server"; "instance"; "ec2"; "vm"; "virtual machine";
                  "compute"; "container"; "auto scaling"; "asg"; "vmss";
                  "small"; "medium"; "large"];
     cloud_resources := [
       ("aws", ["ec2_instance"; "autoscaling_group"; "launch_template"]);
       ("azure", ["linux_virtual_machine"; "windows_virtual_machine";
                  "virtual_machine_scale_set"]);
       ("gcp", ["compute_instance"; "compute_instance_group_manager"])] |});
  ("database", {|
     keywords := ["database"; "db"; "rds"; "sql"; "mysql"; "postgres";
                  "postgresql"; "dynamodb"; "cosmosdb"; "firestore";
                  "mongodb"; "mariadb"];
     cloud_resources := [
       ("aws", ["db_instance"; "dynamodb_table"; "rds_cluster"]);
       ("azure", ["mssql_server"; "mysql_server"; "postgresql_server";
                  "cosmosdb_account"]);
       ("gcp", ["sql_database_instance"; "firestore_database"])] |});
  ("storage", {|
     keywords := ["storage"; "bucket"; "blob"; "s3"; "ebs"; "disk";
                  "volume"; "file storage"; "object storage"];
     cloud_resources := [
       ("aws", ["s3_bucket"; "ebs_volume"; "efs_file_system"]);
       ("azure", ["storage_account"; "storage_blob"; "managed_disk"]);
       ("gcp", ["storage_bucket"; "compute_disk"])] |});
  ("security", {|
     keywords := ["iam"; "role"; "policy"; "security group"; "firewall";
                  "acl"; "kms"; "key vault"; "secrets"; "certificate";
                  "strict"];
     cloud_resources := [
       ("aws", ["iam_role"; "iam_policy"; "security_group"; "kms_key"]);
       ("azure", ["role_assignment"; "key_vault";
                  "network_security_group"]);
       ("gcp", ["project_iam_binding"; "compute_firewall";
                "kms_crypto_key"])] |});
  ("monitoring", {|
     keywords := ["monitor"; "monitoring"; "logs"; "alerts"; "metrics";
                  "cloudwatch"; "log analytics"; "stackdriver"];
     cloud_resources := [
       ("aws", ["cloudwatch_log_group"; "cloudwatch_metric_alarm";
                "sns_topic"]);
       ("azure", ["monitor_metric_alert"; "log_analytics_workspace"]);
       ("gcp", ["monitoring_alert_policy"; "logging_metric"])] |});
  ("container", {|
     keywords := ["container"; "docker"; "kubernetes"; "k8s"; "ecs"; "eks";
                  "aks"; "gke"; "fargate"; "pod"; "deployment"];
     cloud_resources := [
       ("aws", ["ecs_cluster"; "ecs_service"; "eks_cluster"]);
       ("azure", ["kubernetes_cluster"; "container_group"]);
       ("gcp", ["container_cluster"; "container_node_pool"])] |});
  ("serverless", {|
     keywords := ["lambda"; "function"; "serverless"; "cloud function";
                  "azure function"];
     cloud_resources := [
       ("aws", ["lambda_function"; "api_gateway_rest_api"]);
       ("azure", ["function_app"]);
       ("gcp", ["cloudfunctions_function"])] |});
  ("provider", {|
     keywords := ["aws"; "amazon web services"; "azure"; "microsoft azure";
                  "gcp"; "google cloud"; "google cloud platform"];
     cloud_resources := [] |});
  ("os", {|
     keywords := ["ubuntu"; "windows"; "amazon linux"; "centos"; "rhel";
                  "debian"; "fedora"];
     cloud_resources := [] |})
].

Definition ACTION_VERBS : list (string * list string) := [
  ("create", ["create"; "deploy"; "launch"; "provision"; "setup"; "set up";
              "add"; "build"]);
  ("delete", ["delete"; "remove"; "destroy"; "terminate"; "tear down"]);
  ("modify", ["modify"; "update"; "change"; "edit"; "configure"]);
  ("query", ["show"; "list"; "describe"; "get"; "what"; "which"])
].

(** [\b(no|not|without|don\'t|dont|never|exclude)\b] and
    [\b(except|excluding)\b] *)
Definition NEGATION_PATTERNS : list pattern := [
  ["no"; "not"; "without"; "don't"; "dont"; "never"; "exclude"];
  ["except"; "excluding"]
].

(** ** Exceptions

    A subscript of a dict or of a list raises when the key or the index is
    missing; the methods below return in [result] so that the subscripts of
    the source stay visible. *)

Inductive exn :=
  | KeyError (key : string)
  | IndexError.

Inductive result (A : Type) :=
  | Ok (a : A)
  | Raise (e : exn).
Arguments Ok {A} a.
Arguments Raise {A} e.

#[global] Instance result_ret : MRet result := fun A a => Ok a.
#[global] Instance result_bind : MBind result := fun A B f m =>
  match m with
  | Ok a => f a
  | Raise e => Raise e
  end.

(** [d[key]] *)
Definition dict_get {V} (d : gmap string V) (key : string) : result V :=
  match d !! key with
  | Some v => Ok v
  | None => Raise (KeyError key)
  end.

(** [l[i]] for an index that is not negative *)
Definition list_get {A} (l : list A) (i : nat) : result A :=
  match l !! i with
  | Some x => Ok x
  | None => Raise IndexError
  end.

(** A [for] loop whose body updates a state and may raise. *)
Fixpoint for_each {A S} (xs : list A) (body : S → A → result S) (s : S)
    : result S :=
  match xs with
  | [] => Ok s
  | x :: xs' => s' ← body s x; for_each xs' body s'
  end.

(** ** The result of a detection *)

Module Detected.
(** The dict that [detect_intents] returns, by its four keys. *)
Record t := mk {
  action : string;
  categories : gmap string (list string);
  negated_categories : gset string;
  raw_sentence : string
}.

Definition set_categories (c : gmap string (list string)) (d : t) : t :=
  mk (action d) c (negated_categories d) (raw_sentence d).

Definition set_negated (n : gset string) (d : t) : t :=
  mk (action d) (categories d) n (raw_sentence d).
End Detected.

(** ** The parser *)

Module IntentParser.
Import Detected.

(** The attributes of an instance.  The methods that do not read [self]
    ([has_negation], [validate_intent], [normalize_provider], [extract_os])
    take no parser argument. *)
Record self := {
  self_categories : list (string * CategoryData);
  self_actions : list (string * list string)
}.

(** [IntentParser()] *)
Definition init : self := {|
  self_categories := INTENT_CATEGORIES;
  self_actions := ACTION_VERBS
|}.

(** The loops of [has_negation]: over the patterns for one word, and
    over the words, each leaving at the first match. *)
Fixpoint negation_in_word (patterns : list pattern) (word : text) : bool :=
  match patterns with
  | [] => false
  | pattern :: patterns' =>
      if re_search true pattern word then true
      else negation_in_word patterns' word
  end.

Fixpoint negation_in_words (words : list text) : bool :=
  match words with
  | [] => false
  | word :: words' =>
      if negation_in_word NEGATION_PATTERNS word then true
      else negation_in_words words'
  end.

Definition has_negation (t : text) (keyword_position : Z) : bool :=
  let words_before := last_n 5 (split (slice_to keyword_position t)) in
  negation_in_words words_before.

(** The loops of [extract_action]: over the verbs of one action, and
    over the actions, each leaving at the first match.  The source puts
    the verb into the pattern as it is, so the pattern reads it as the
    word it spells only when it holds no metacharacter of [re]; the verbs
    of [ACTION_VERBS] are letters and spaces.  The model reads every verb
    as the word it spells: it follows the source on the tables that pass
    [plain_tables] below. *)
Fixpoint verb_found (verbs : list string) (sentence_lower : text) : bool :=
  match verbs with
  | [] => false
  | verb :: verbs' =>
      if re_search false [verb] sentence_lower then true
      else verb_found verbs' sentence_lower
  end.

Fixpoint action_found (actions : list (string * list string))
    (sentence_lower : text) : option string :=
  match actions with
  | [] => None
  | (action_type, verbs) :: actions' =>
      if verb_found verbs sentence_lower then Some action_type
      else action_found actions' sentence_lower
  end.

Definition extract_action (s : self) (sentence : string) : string :=
  let sentence_lower := lower (chars sentence) in
  match action_found (self_actions s) sentence_lower with
  | Some action_type => action_type
  | None => "create"
  end.

(** The body of the innermost loop of [detect_intents], for the match
    that starts at [start]. *)
Definition record_match (sentence_lower : text) (category keyword : string)
    (detected : t) (start : nat) : result t :=
  if has_negation sentence_lower (Z.of_nat start) then
    Ok (set_negated ({[category]} ∪ negated_categories detected) detected)
  else
    let cats :=
      if bool_decide (category ∉ dom (categories detected))
      then <[category := []]> (categories detected)
      else categories detected in
    found ← dict_get cats category;
    if bool_decide (keyword ∉ found)
    then Ok (set_categories (<[category := found ++ [keyword]]> cats) detected)
    else Ok (set_categories cats detected).

Definition detect_intents (s : self) (sentence : string) : result t :=
  let sentence_lower := lower (chars sentence) in
  let detected := {|
    action := extract_action s sentence;
    categories := ∅;
    negated_categories := ∅;
    raw_sentence := sentence
  |} in
  for_each (self_categories s) (fun detected '(category, data) =>
    for_each (keywords data) (fun detected keyword =>
      let matches := re_finditer true [keyword] sentence_lower in
      for_each matches (record_match sentence_lower category keyword)
        detected) detected) detected.

Definition validate_intent (detected : t) : bool :=
  if bool_decide (negated_categories detected ∩ dom (categories detected) ≠ ∅)
  then false
  else if bool_decide (categories detected = ∅) then false
  else true.

Definition normalize_provider (detected : t) : result (option string) :=
  if bool_decide ("provider" ∉ dom (categories detected)) then Ok None
  else
    provider_keywords ← dict_get (categories detected) "provider";
    if bool_decide (provider_keywords = []) then Ok None
    else
      first ← list_get provider_keywords 0;
      let keyword := lower (chars first) in
      if contains (chars "aws") keyword || contains (chars "amazon") keyword
      then Ok (Some "aws")
      else if contains (chars "azure") keyword
              || contains (chars "microsoft") keyword
      then Ok (Some "azure")
      else if contains (chars "gcp") keyword
              || contains (chars "google") keyword
      then Ok (Some "gcp")
      else Ok None.

Definition extract_os (detected : t) : result (option string) :=
  if bool_decide ("os" ∉ dom (categories detected)) then Ok None
  else
    os_keywords ← dict_get (categories detected) "os";
    if bool_decide (os_keywords = []) then Ok None
    else
      os_name ← list_get os_keywords 0;
      if bool_decide (os_name = "amazon linux") then Ok (Some "Amazon Linux")
      else if bool_decide (os_name = "rhel") then Ok (Some "RHEL")
      else Ok (Some (str (capitalize (chars os_name)))).
End IntentParser.

(** ** Notions used to state the properties *)

(** The characters of [mid] are those of the word [w], as the matcher
    compares them. *)
Definition text_eq (ignorecase : bool) (mid : text) (w : string) : Prop :=
  Forall2 (λ c p, char_eq ignorecase c p = true) mid (chars w).

(** The word [w] stands in [t] after [n] characters, with a word boundary
    on either side. *)
Definition occurs_at (ignorecase : bool) (w : string) (t : text) (n : nat)
    : Prop :=
  ∃ pre mid post,
    t = pre ++ mid ++ post ∧ length pre = n ∧ text_eq ignorecase mid w ∧
    boundary (last pre) (mid ++ post) = true ∧
    boundary (last (pre ++ mid)) post = true.

Definition occurs (ignorecase : bool) (w : string) (t : text) : Prop :=
  ∃ n, occurs_at ignorecase w t n.

(** Every position at which the pattern matches, whether or not the
    matches overlap: the positions [n] of [occurs_at]. *)
Fixpoint positions_from (ignorecase : bool) (alts : pattern) (pos : nat)
    (prev : option ascii) (t : text) : list nat :=
  (if match_here ignorecase alts prev t is Some _ then [pos] else [])
  ++ match t with
     | [] => []
     | c :: t' => positions_from ignorecase alts (S pos) (Some c) t'
     end.

Definition word_positions (ignorecase : bool) (alts : pattern) (t : text)
    : list nat :=
  positions_from ignorecase alts 0 None t.

(** One alternative matches at the head of [rest], which follows [pre]. *)
Definition alt_ok (ignorecase : bool) (w : string) (pre rest : text) : Prop :=
  ∃ mid post, rest = mid ++ post ∧ text_eq ignorecase mid w ∧
              boundary (last (pre ++ mid)) post = true.

(** The keyword has a match in the lowered sentence that is not in a
    negated context; [deniedb], one that is. *)
Definition affirmedb (sentence_lower : text) (keyword : string) : bool :=
  existsb (λ p, negb (IntentParser.has_negation sentence_lower (Z.of_nat p)))
    (re_finditer true [keyword] sentence_lower).

Definition deniedb (sentence_lower : text) (keyword : string) : bool :=
  existsb (λ p, IntentParser.has_negation sentence_lower (Z.of_nat p))
    (re_finditer true [keyword] sentence_lower).

(** The keywords of a category that the sentence affirms, in the order of
    the table. *)
Definition affirmed_keywords (sentence_lower : text) (data : CategoryData)
    : list string :=
  filter (λ k, affirmedb sentence_lower k = true) (keywords data).

(** What a [categories] dict holds for a list of keywords: no entry when
    the list is empty. *)
Definition entry (l : list string) : option (list string) :=
  match l with
  | [] => None
  | _ => Some l
  end.

(** The update of [categories] by one match that is not negated. *)
Definition add_keyword (category keyword : string)
    (cats : gmap string (list string)) : gmap string (list string) :=
  let found := default [] (cats !! category) in
  <[category := if bool_decide (keyword ∈ found) then found
                else found ++ [keyword]]> cats.

(** The three loops of [detect_intents] without the exception layer. *)
Definition scan_match (sentence_lower : text) (category keyword : string)
    (detected : Detected.t) (start : nat) : Detected.t :=
  if IntentParser.has_negation sentence_lower (Z.of_nat start)
  then Detected.set_negated
         ({[category]} ∪ Detected.negated_categories detected) detected
  else Detected.set_categories
         (add_keyword category keyword (Detected.categories detected)) detected.

Definition scan_keyword (sentence_lower : text) (category : string)
    (detected : Detected.t) (keyword : string) : Detected.t :=
  foldl (scan_match sentence_lower category keyword) detected
    (re_finditer true [keyword] sentence_lower).

Definition scan_category (sentence_lower : text) (detected : Detected.t)
    (item : string * CategoryData) : Detected.t :=
  foldl (scan_keyword sentence_lower item.1) detected (keywords item.2).

(** Appending the keywords of [ks] that a list does not hold yet. *)
Definition add_all (l ks : list string) : list string :=
  foldl (λ l k, if bool_decide (k ∈ l) then l else l ++ [k]) l ks.

(** The token [d] places before position [pos] of [t], counted from 1 at the
    token nearest to the position. *)
Definition token_before (t : text) (pos : Z) (d : nat) : option text :=
  match d with
  | O => None
  | S i => reverse (split (slice_to pos t)) !! i
  end.

(** The cue words of [NEGATION_PATTERNS]. *)
Definition negation_cues : list string := concat NEGATION_PATTERNS.

(** The word [w] stands in [t] with no word character directly before it
    or directly after it. *)
Definition flanked (ignorecase : bool) (w : string) (t : text) : Prop :=
  ∃ pre mid post,
    t = pre ++ mid ++ post ∧ text_eq ignorecase mid w ∧
    word_opt (last pre) = false ∧ word_opt (head post) = false.

(** No keyword of the table other than [k] of category [c] stands in the
    text as a whole word. *)
Definition only_keyword (sentence_lower : text) (c k : string) : Prop :=
  ∀ c' data' k',
    (c', data') ∈ INTENT_CATEGORIES → k' ∈ keywords data' →
    (c', k') ≠ (c, k) → ¬ occurs true k' sentence_lower.

(** [only_keyword] as a computation over the table. *)
Definition only_keywordb (sentence_lower : text) (c k : string) : bool :=
  forallb (λ item,
    forallb (λ k',
      bool_decide ((item.1, k') = (c, k))
      || bool_decide (word_positions true [k'] sentence_lower = []))
      (keywords item.2)) INTENT_CATEGORIES.

(** No keyword of the table stands in the text as a whole word. *)
Definition no_keyword (sentence_lower : text) : Prop :=
  ∀ c data k,
    (c, data) ∈ INTENT_CATEGORIES → k ∈ keywords data →
    ¬ occurs true k sentence_lower.

(** A word whose first and last characters are word characters. *)
Definition word_ends (w : string) : bool :=
  word_opt (head (chars w)) && word_opt (last (chars w)).

(** [needle] is a contiguous run of [hay]. *)
Definition substring (needle : string) (hay : text) : Prop :=
  ∃ pre post, hay = pre ++ chars needle ++ post.

(** A second match of the word cannot start inside a first one: at no
    offset [i] inside the word is there a word boundary followed by a
    character that compares equal to the word's first character. *)
Definition no_overlap (ignorecase : bool) (w : string) : bool :=
  let k := chars w in
  forallb (λ i,
    negb (xorb (word_opt (k !! (i - 1))) (word_opt (k !! i))
          && from_option
               (λ c, from_option (char_eq ignorecase c) false (head k))
               false (k !! i)))
    (seq 1 (length k - 1)).

(** The keyword stands in the lowered sentence as a whole word, at some
    offset whose five-token window holds no negation cue; [denied], at some
    offset whose window holds one. *)
Definition affirmed (sentence_lower : text) (k : string) : Prop :=
  ∃ n, occurs_at true k sentence_lower n ∧
       IntentParser.has_negation sentence_lower (Z.of_nat n) = false.

Definition denied (sentence_lower : text) (k : string) : Prop :=
  ∃ n, occurs_at true k sentence_lower n ∧
       IntentParser.has_negation sentence_lower (Z.of_nat n) = true.

(** [k] is a keyword that the table lists for the category [c]. *)
Definition keyword_of (c k : string) : Prop :=
  ∃ data, (c, data) ∈ INTENT_CATEGORIES ∧ k ∈ keywords data.

(** What every result of a detection satisfies, for the table [tbl] of the
    parser: a category present holds a list that is not empty, has no
    repeated keyword and holds only keywords the table lists for it; a
    negated category is one of the table. *)
Definition well_formed (tbl : list (string * CategoryData))
    (d : Detected.t) : Prop :=
  (∀ c l, Detected.categories d !! c = Some l →
     l ≠ [] ∧ NoDup l ∧
     ∀ k, k ∈ l → ∃ data, (c, data) ∈ tbl ∧ k ∈ keywords data) ∧
  (∀ c, c ∈ Detected.negated_categories d → c ∈ tbl.*1).

(** The keywords that two categories of the table list. *)
Definition shared_keywords : list (string * string * string) :=
  '(c1, d1) ← INTENT_CATEGORIES;
  '(c2, d2) ← INTENT_CATEGORIES;
  k ← keywords d1;
  if bool_decide (c1 ≠ c2 ∧ k ∈ keywords d2) then [(c1, c2, k)] else [].

(** Some verb of the action [a] stands in the lowered sentence as a whole
    word. *)
Definition action_named (sentence_lower : text) (a : string) : Prop :=
  ∃ verbs v, (a, verbs) ∈ ACTION_VERBS ∧ v ∈ verbs ∧
             flanked false v sentence_lower.

(** The whitespace-delimited tokens of a text, in their order: the text
    is whitespace, a token, whitespace, a token, and so on, where a token
    is a run of characters that are not whitespace, is not empty, and
    ends where whitespace or the end of the text follows. *)
Inductive tokens : text → list text → Prop :=
| tokens_end ws :
    Forall (λ c, is_space c = true) ws → tokens ws []
| tokens_next ws w rest toks :
    Forall (λ c, is_space c = true) ws →
    w ≠ [] → Forall (λ c, is_space c = false) w →
    from_option is_space true (head rest) = true →
    tokens rest toks →
    tokens (ws ++ w ++ rest) (w :: toks).

(** One of the last five tokens of [before], the text before a keyword,
    holds a negation cue with no word character directly before it or
    directly after it. *)
Definition cue_in_window (before : text) : Prop :=
  ∃ toks earlier w later cue,
    tokens before toks ∧ toks = earlier ++ w :: later ∧ length later < 5 ∧
    cue ∈ negation_cues ∧ flanked true cue w.

(** A character that a pattern of [re] reads as itself. *)
Definition plain_char (c : ascii) : bool :=
  negb (bool_decide (c ∈ chars "\.^$+?{}[]|()*")).

(** Tables that a parser can hold and on which the verbs are read as the
    words they spell: the names of a dict are distinct, and no verb holds
    a metacharacter. *)
Definition plain_tables (s : IntentParser.self) : bool :=
  bool_decide (NoDup (IntentParser.self_categories s).*1) &&
  bool_decide (NoDup (IntentParser.self_actions s).*1) &&
  forallb (λ entry, forallb (λ verb, forallb plain_char (chars verb))
                            entry.2)
          (IntentParser.self_actions s).

(** * Properties *)

Import IntentParser Detected.

(** ** The matcher *)

Section matcher.
Context (ic : bool).

Lemma lit_match_spec lit pre t prev' rest :
  lit_match ic lit (last pre) t = Some (prev', rest) ↔
  ∃ mid, t = mid ++ rest ∧
         Forall2 (λ c p, char_eq ic c p = true) mid lit ∧
         prev' = last (pre ++ mid).
Proof.
  revert pre t. induction lit as [|p lit IH]; intros pre t; simpl.
  - split.
    + intros [= <- <-]. exists []. by rewrite app_nil_r.
    + intros (mid & -> & ->%Forall2_nil_inv_r & ->).
      by rewrite app_nil_r.
  - destruct t as [|c t].
    + split; [done|].
      intros (mid & Ht & Hmid & _).
      apply Forall2_cons_inv_r in Hmid as (c & mid' & _ & _ & ->).
      discriminate.
    + destruct (char_eq ic c p) eqn:Hc.
      * rewrite <- (last_snoc c pre), IH. split.
        -- intros (mid & -> & Hmid & ->). exists (c :: mid).
           rewrite <- (assoc_L (++)). split_and!; [done|by constructor|done].
        -- intros (mid & Ht & Hmid & ->).
           apply Forall2_cons_inv_r in Hmid as (c' & mid' & _ & Hmid & ->).
           simplify_eq/=. exists mid'.
           by rewrite <- (assoc_L (++)).
      * split; [done|].
        intros (mid & Ht & Hmid & _).
        apply Forall2_cons_inv_r in Hmid as (c' & mid' & Hc' & _ & ->).
        simplify_eq/=. congruence.
Qed.

Lemma alt_match_spec alts pre rest :
  is_Some (alt_match ic alts (last pre) rest) ↔
  ∃ w, w ∈ alts ∧ alt_ok ic w pre rest.
Proof.
  induction alts as [|w alts IH]; simpl.
  - split; [by intros [? ?]|]. by intros (w & ?%elem_of_nil & _).
  - destruct (lit_match ic (chars w) (last pre) rest) as [[prev' post]|]
      eqn:Hlit.
    + apply lit_match_spec in Hlit as (mid & -> & Hmid & ->).
      destruct (boundary (last (pre ++ mid)) post) eqn:Hb.
      * split; [|by eauto]. intros _. exists w. split; [left|].
        by exists mid, post.
      * rewrite IH. split.
        -- intros (w' & ? & ?). exists w'. split; [by right|done].
        -- intros (w' & [->|?]%elem_of_cons & Hw'); [|by eauto].
           destruct Hw' as (mid' & post' & Heq & Hmid' & Hb').
           assert (length mid' = length mid) as Hlen.
           { by rewrite (Forall2_length _ _ _ Hmid'), (Forall2_length _ _ _ Hmid). }
           apply app_inj_1 in Heq as [-> ->]; [|done]. congruence.
    + rewrite IH. split.
      * intros (w' & ? & ?). exists w'. split; [by right|done].
      * intros (w' & [->|?]%elem_of_cons & Hw'); [|by eauto].
        destruct Hw' as (mid' & post' & -> & Hmid' & Hb').
        assert (lit_match ic (chars w) (last pre) (mid' ++ post')
                = Some (last (pre ++ mid'), post')) as Hcontra.
        { apply lit_match_spec. by exists mid'. }
        congruence.
Qed.

Lemma match_here_spec alts pre rest :
  is_Some (match_here ic alts (last pre) rest) ↔
  ∃ w, w ∈ alts ∧ boundary (last pre) rest = true ∧ alt_ok ic w pre rest.
Proof.
  unfold match_here. destruct (boundary (last pre) rest).
  - rewrite alt_match_spec. split.
    + intros (w & ? & ?). by exists w.
    + intros (w & ? & _ & ?). by exists w.
  - split; [by intros [? ?]|]. by intros (w & _ & ? & _).
Qed.

Lemma occurs_at_le w t n : occurs_at ic w t n → n ≤ length t.
Proof.
  intros (pre & mid & post & -> & <- & _). rewrite length_app. lia.
Qed.

Lemma occurs_at_here w pre rest :
  occurs_at ic w (pre ++ rest) (length pre) ↔
  boundary (last pre) rest = true ∧ alt_ok ic w pre rest.
Proof.
  split.
  - intros (pre' & mid & post & Heq & Hlen & Hmid & Hb1 & Hb2).
    symmetry in Heq. apply app_inj_1 in Heq as [-> <-]; [|done].
    split; [done|]. by exists mid, post.
  - intros [Hb1 (mid & post & -> & Hmid & Hb2)].
    by exists pre, mid, post.
Qed.

Lemma position_here_spec alts pre rest n :
  n ∈ (if match_here ic alts (last pre) rest is Some _
       then [length pre] else []) ↔
  n = length pre ∧ ∃ w, w ∈ alts ∧ occurs_at ic w (pre ++ rest) n.
Proof.
  split.
  - intros Hn.
    destruct (match_here ic alts (last pre) rest) eqn:Hm;
      [|by apply elem_of_nil in Hn].
    apply list_elem_of_singleton in Hn as ->. split; [done|].
    destruct (proj1 (match_here_spec alts pre rest)) as (w & ? & ? & ?);
      [by rewrite Hm|].
    exists w. split; [done|]. by apply occurs_at_here.
  - intros [-> (w & Hw & [? ?]%occurs_at_here)].
    destruct (proj2 (match_here_spec alts pre rest)) as [m ->];
      [by exists w|]. left.
Qed.

Lemma positions_from_spec alts pre rest n :
  n ∈ positions_from ic alts (length pre) (last pre) rest ↔
  length pre ≤ n ∧ ∃ w, w ∈ alts ∧ occurs_at ic w (pre ++ rest) n.
Proof.
  revert pre. induction rest as [|c rest IH]; intros pre.
  - simpl. rewrite elem_of_app, position_here_spec. split.
    + intros [[-> ?]|?%elem_of_nil]; [|done]. by split.
    + intros [Hle (w & Hw & Hocc)]. left. split; [|by exists w].
      apply occurs_at_le in Hocc. rewrite app_nil_r in Hocc. lia.
  - specialize (IH (pre ++ [c])).
    rewrite length_app, last_snoc, <- (assoc_L (++)) in IH. simpl in IH.
    rewrite Nat.add_1_r in IH.
    simpl. rewrite elem_of_app, IH, position_here_spec. split.
    + intros [[-> ?]|[? ?]]; (split; [lia|done]).
    + intros [Hle ?].
      destruct (decide (n = length pre)) as [->|Hne]; [by left|].
      right. split; [lia|done].
Qed.

Lemma word_positions_spec alts t n :
  n ∈ word_positions ic alts t ↔ ∃ w, w ∈ alts ∧ occurs_at ic w t n.
Proof.
  unfold word_positions.
  rewrite (positions_from_spec alts [] t n). simpl. split.
  - by intros [_ ?].
  - intros ?. split; [lia|done].
Qed.

Lemma word_positions_nil w t :
  word_positions ic [w] t = [] ↔ ¬ occurs ic w t.
Proof.
  split.
  - intros Hnil [n Hn].
    assert (n ∈ word_positions ic [w] t) as Hin.
    { apply word_positions_spec. exists w. split; [left|done]. }
    rewrite Hnil in Hin. by apply elem_of_nil in Hin.
  - intros Hnone. apply elem_of_nil_inv. intros n Hn.
    apply word_positions_spec in Hn as (w' & ->%list_elem_of_singleton & ?).
    apply Hnone. by exists n.
Qed.

Lemma positions_from_ge alts pos prev t n :
  n ∈ positions_from ic alts pos prev t → pos ≤ n.
Proof.
  revert pos prev. induction t as [|c t IH]; intros pos prev; simpl.
  - rewrite app_nil_r. destruct (match_here ic alts prev []).
    + by intros ->%list_elem_of_singleton.
    + by intros ?%elem_of_nil.
  - intros [Hn|Hn]%elem_of_app.
    + destruct (match_here ic alts prev (c :: t)).
      * by apply list_elem_of_singleton in Hn as ->.
      * by apply elem_of_nil in Hn.
    + apply IH in Hn. lia.
Qed.

Lemma positions_from_NoDup alts pos prev t :
  NoDup (positions_from ic alts pos prev t).
Proof.
  revert pos prev. induction t as [|c t IH]; intros pos prev; simpl.
  - rewrite app_nil_r. destruct (match_here ic alts prev []).
    + apply NoDup_singleton.
    + apply NoDup_nil_2.
  - apply NoDup_app. split_and!.
    + destruct (match_here ic alts prev (c :: t)).
      * apply NoDup_singleton.
      * apply NoDup_nil_2.
    + intros n Hn Hn'. apply positions_from_ge in Hn'.
      destruct (match_here ic alts prev (c :: t)).
      * apply list_elem_of_singleton in Hn as ->. lia.
      * by apply elem_of_nil in Hn.
    + apply IH.
Qed.

Lemma word_positions_single w t p :
  word_positions ic [w] t = [p] ↔ ∀ n, occurs_at ic w t n ↔ n = p.
Proof.
  split.
  - intros Hp n. split.
    + intros Hocc.
      assert (n ∈ word_positions ic [w] t) as Hin.
      { apply word_positions_spec. exists w. split; [left|done]. }
      rewrite Hp in Hin. by apply list_elem_of_singleton in Hin.
    + intros ->.
      assert (p ∈ word_positions ic [w] t) as Hin by (rewrite Hp; left).
      by apply word_positions_spec in Hin
        as (w' & ->%list_elem_of_singleton & ?).
  - intros Hall. apply Permutation_singleton_r, NoDup_Permutation.
    + apply positions_from_NoDup.
    + apply NoDup_singleton.
    + intros n. rewrite list_elem_of_singleton, <- Hall, word_positions_spec.
      split.
      * by intros (w' & ->%list_elem_of_singleton & ?).
      * intros ?. exists w. split; [left|done].
Qed.

Lemma search_from_positions alts pos prev t :
  search_from ic alts prev t = true ↔ positions_from ic alts pos prev t ≠ [].
Proof.
  revert pos prev. induction t as [|c t IH]; intros pos prev; simpl.
  - destruct (match_here ic alts prev []); simpl; split; done.
  - destruct (match_here ic alts prev (c :: t)); simpl; [split; done|].
    apply IH.
Qed.

Lemma re_search_spec alts t :
  re_search ic alts t = true ↔ ∃ w, w ∈ alts ∧ occurs ic w t.
Proof.
  unfold re_search. rewrite (search_from_positions alts 0). split.
  - intros Hne. destruct (positions_from ic alts 0 None t) as [|n l] eqn:Hp;
      [done|].
    assert (n ∈ word_positions ic alts t) as Hn.
    { unfold word_positions. rewrite Hp. left. }
    apply word_positions_spec in Hn as (w & ? & ?).
    exists w. split; [done|]. by exists n.
  - intros (w & Hw & n & Hn).
    assert (n ∈ word_positions ic alts t) as Hin.
    { apply word_positions_spec. by exists w. }
    unfold word_positions in Hin. intros Heq. rewrite Heq in Hin.
    by apply elem_of_nil in Hin.
Qed.

Lemma finditer_sublist alts skip pos prev t :
  finditer_from ic alts skip pos prev t
    `sublist_of` positions_from ic alts pos prev t.
Proof.
  revert skip pos prev. induction t as [|c t IH]; intros skip pos prev.
  - simpl. rewrite app_nil_r. destruct skip; [done|apply sublist_nil_l].
  - simpl. destruct skip as [|k].
    + destruct (match_here ic alts prev (c :: t)); simpl.
      * apply sublist_skip, IH.
      * apply IH.
    + apply sublist_inserts_l, IH.
Qed.

Lemma match_here_nil alts prev :
  "" ∉ alts → match_here ic alts prev [] = None.
Proof.
  intros Hne. unfold match_here. destruct (boundary prev []); [|done].
  induction alts as [|w alts IH]; simpl; [done|].
  destruct w as [|c w]; [by destruct Hne; left|]. simpl.
  apply IH. intros ?. apply Hne. by right.
Qed.

Lemma finditer_single alts pos prev t p :
  "" ∉ alts →
  positions_from ic alts pos prev t = [p] →
  finditer_from ic alts 0 pos prev t = [p].
Proof.
  intros Hne. revert pos prev. induction t as [|c t IH]; intros pos prev.
  - simpl. by rewrite match_here_nil.
  - simpl. destruct (match_here ic alts prev (c :: t)); simpl.
    + intros [= -> Hrest]. f_equal.
      apply sublist_nil_r. rewrite <- Hrest. apply finditer_sublist.
    + apply IH.
Qed.

Lemma finditer_none alts t :
  word_positions ic alts t = [] → re_finditer ic alts t = [].
Proof.
  intros Hnil. apply sublist_nil_r. rewrite <- Hnil.
  apply finditer_sublist.
Qed.

Lemma finditer_occurs alts t n :
  n ∈ re_finditer ic alts t → ∃ w, w ∈ alts ∧ occurs_at ic w t n.
Proof.
  intros Hn. apply word_positions_spec.
  eapply elem_of_sublist; [done|]. apply finditer_sublist.
Qed.
End matcher.

(** ** The loops of [detect_intents] *)

Section loops.
Context (sl : text).

Lemma for_each_Ok {A S} (xs : list A) (body : S → A → result S)
    (f : S → A → S) (s : S) :
  (∀ s x, body s x = Ok (f s x)) → for_each xs body s = Ok (foldl f s xs).
Proof.
  intros Hbody. revert s. induction xs as [|x xs IH]; intros s; simpl.
  - done.
  - rewrite Hbody. simpl. apply IH.
Qed.

Lemma record_match_Ok c k d p :
  record_match sl c k d p = Ok (scan_match sl c k d p).
Proof.
  unfold record_match, scan_match, add_keyword.
  destruct (has_negation sl (Z.of_nat p)); [done|].
  case_bool_decide as Hdom.
  - apply not_elem_of_dom in Hdom. rewrite Hdom. simpl.
    unfold dict_get. rewrite lookup_insert_eq. simpl.
    by rewrite insert_insert_eq.
  - apply elem_of_dom in Hdom as [found Hfound].
    unfold dict_get. rewrite Hfound. simpl.
    case_bool_decide as Hk.
    + by rewrite bool_decide_eq_false_2.
    + rewrite bool_decide_eq_true_2 by done.
      by rewrite insert_id.
Qed.

Lemma add_keyword_idemp c k m :
  add_keyword c k (add_keyword c k m) = add_keyword c k m.
Proof.
  unfold add_keyword. rewrite lookup_insert_eq. simpl.
  set (found := default [] (m !! c)).
  destruct (decide (k ∈ found)) as [Hk|Hk].
  - rewrite !(bool_decide_eq_true_2 (k ∈ found)) by done.
    by rewrite insert_insert_eq.
  - rewrite (bool_decide_eq_false_2 (k ∈ found)) by done.
    rewrite bool_decide_eq_true_2 by (apply elem_of_app; right; left).
    by rewrite insert_insert_eq.
Qed.

Lemma add_keyword_lookup_ne c c' k m :
  c' ≠ c → add_keyword c k m !! c' = m !! c'.
Proof. intros ?. unfold add_keyword. by rewrite lookup_insert_ne. Qed.

Lemma add_keyword_lookup c k m :
  add_keyword c k m !! c = Some (add_all (default [] (m !! c)) [k]).
Proof. unfold add_keyword. by rewrite lookup_insert_eq. Qed.

(** *** The matches of one keyword *)

Lemma scan_matches_categories c k d ps :
  categories (foldl (scan_match sl c k) d ps) =
  if existsb (λ p, negb (has_negation sl (Z.of_nat p))) ps
  then add_keyword c k (categories d) else categories d.
Proof.
  revert d. induction ps as [|p ps IH]; intros d; simpl; [done|].
  rewrite IH. unfold scan_match.
  destruct (has_negation sl (Z.of_nat p)); simpl; [done|].
  rewrite add_keyword_idemp. by destruct (existsb _ ps).
Qed.

Lemma scan_matches_negated c k d ps :
  negated_categories (foldl (scan_match sl c k) d ps) =
  (if existsb (λ p, has_negation sl (Z.of_nat p)) ps then {[c]} else ∅)
  ∪ negated_categories d.
Proof.
  revert d. induction ps as [|p ps IH]; intros d; simpl.
  - by rewrite (left_id_L ∅ (∪)).
  - rewrite IH. unfold scan_match.
    destruct (has_negation sl (Z.of_nat p)); simpl.
    + destruct (existsb _ ps).
      * by rewrite (assoc_L (∪)), (idemp_L (∪)).
      * by rewrite (left_id_L ∅ (∪)).
    + done.
Qed.

Lemma scan_matches_fixed c k d ps :
  action (foldl (scan_match sl c k) d ps) = action d ∧
  raw_sentence (foldl (scan_match sl c k) d ps) = raw_sentence d.
Proof.
  revert d. induction ps as [|p ps IH]; intros d; simpl; [done|].
  destruct (IH (scan_match sl c k d p)) as [-> ->].
  unfold scan_match. by destruct (has_negation sl (Z.of_nat p)).
Qed.

(** *** The keywords of one category *)

Lemma scan_keywords_categories c d ks :
  categories (foldl (scan_keyword sl c) d ks) =
  foldl (λ m k, add_keyword c k m) (categories d)
    (filter (λ k, affirmedb sl k = true) ks).
Proof.
  revert d. induction ks as [|k ks IH]; intros d; simpl; [done|].
  rewrite IH. unfold scan_keyword. rewrite scan_matches_categories.
  rewrite filter_cons. fold (affirmedb sl k).
  destruct (decide (affirmedb sl k = true)) as [->|Hk]; simpl; [done|].
  by apply not_true_is_false in Hk as ->.
Qed.

Lemma scan_keywords_negated c d ks :
  negated_categories (foldl (scan_keyword sl c) d ks) =
  (if existsb (deniedb sl) ks then {[c]} else ∅) ∪ negated_categories d.
Proof.
  revert d. induction ks as [|k ks IH]; intros d; simpl.
  - by rewrite (left_id_L ∅ (∪)).
  - rewrite IH. unfold scan_keyword. rewrite scan_matches_negated.
    fold (deniedb sl k).
    destruct (deniedb sl k), (existsb (deniedb sl) ks); simpl;
      rewrite ?(left_id_L ∅ (∪)); [|done..].
    by rewrite (assoc_L (∪)), (idemp_L (∪)).
Qed.

Lemma scan_keywords_fixed c d ks :
  action (foldl (scan_keyword sl c) d ks) = action d ∧
  raw_sentence (foldl (scan_keyword sl c) d ks) = raw_sentence d.
Proof.
  revert d. induction ks as [|k ks IH]; intros d; simpl; [done|].
  destruct (IH (scan_keyword sl c d k)) as [-> ->].
  apply scan_matches_fixed.
Qed.

Lemma add_all_NoDup l ks : NoDup (l ++ ks) → add_all l ks = l ++ ks.
Proof.
  revert l. induction ks as [|k ks IH]; intros l Hnd; simpl.
  - by rewrite app_nil_r.
  - unfold add_all. simpl. fold (add_all (if bool_decide (k ∈ l) then l else l ++ [k]) ks).
    rewrite bool_decide_eq_false_2.
    + rewrite IH; rewrite <- (assoc_L (++)); done.
    + apply NoDup_app in Hnd as (_ & Hdisj & _). intros Hk.
      apply (Hdisj k Hk). left.
Qed.

Lemma add_keywords_lookup_ne c c' m ks :
  c' ≠ c → foldl (λ m k, add_keyword c k m) m ks !! c' = m !! c'.
Proof.
  intros Hne. revert m. induction ks as [|k ks IH]; intros m; simpl; [done|].
  by rewrite IH, add_keyword_lookup_ne.
Qed.

Lemma add_keywords_lookup_Some c m l ks :
  m !! c = Some l →
  foldl (λ m k, add_keyword c k m) m ks !! c = Some (add_all l ks).
Proof.
  revert m l. induction ks as [|k ks IH]; intros m l Hl; simpl; [done|].
  erewrite IH; [done|]. by rewrite add_keyword_lookup, Hl.
Qed.

Lemma add_keywords_lookup c m ks :
  m !! c = None → NoDup ks →
  foldl (λ m k, add_keyword c k m) m ks !! c = entry ks.
Proof.
  intros Hnone Hnd. destruct ks as [|k ks]; simpl; [done|].
  erewrite add_keywords_lookup_Some.
  2:{ by rewrite add_keyword_lookup, Hnone. }
  simpl. f_equal. by apply (add_all_NoDup [k] ks).
Qed.
End loops.

Section table.
Context (sl : text).

Lemma scan_category_categories_ne d c data c' :
  c' ≠ c → categories (scan_category sl d (c, data)) !! c' = categories d !! c'.
Proof.
  intros Hne. unfold scan_category. simpl.
  by rewrite scan_keywords_categories, add_keywords_lookup_ne.
Qed.

Lemma scan_category_categories d c data :
  categories d !! c = None → NoDup (keywords data) →
  categories (scan_category sl d (c, data)) !! c
  = entry (affirmed_keywords sl data).
Proof.
  intros Hnone Hnd. unfold scan_category. simpl.
  rewrite scan_keywords_categories.
  apply add_keywords_lookup; [done|]. by apply NoDup_filter.
Qed.

Lemma scan_table_categories_other tbl d c :
  c ∉ tbl.*1 →
  categories (foldl (scan_category sl) d tbl) !! c = categories d !! c.
Proof.
  revert d. induction tbl as [|[c0 data0] tbl IH]; intros d Hc; simpl;
    [done|].
  apply not_elem_of_cons in Hc as [Hne Hc]. simpl in Hne.
  by rewrite IH, scan_category_categories_ne.
Qed.

Lemma scan_table_categories tbl d c data :
  NoDup tbl.*1 → Forall (λ item, NoDup (keywords item.2)) tbl →
  (c, data) ∈ tbl → categories d !! c = None →
  categories (foldl (scan_category sl) d tbl) !! c
  = entry (affirmed_keywords sl data).
Proof.
  revert d. induction tbl as [|[c0 data0] tbl IH];
    intros d Hnd Hkw Hin Hnone; simpl.
  - by apply elem_of_nil in Hin.
  - apply NoDup_cons in Hnd as [Hc0 Hnd].
    apply Forall_cons in Hkw as [Hkw0 Hkw]. simpl in Hkw0.
    apply elem_of_cons in Hin as [[= -> ->]|Hin].
    + rewrite scan_table_categories_other by done.
      by apply scan_category_categories.
    + apply IH; [done..|].
      rewrite scan_category_categories_ne; [done|].
      intros ->. apply Hc0. apply list_elem_of_fmap.
      by exists (c0, data).
Qed.

Lemma scan_table_negated tbl d c :
  c ∈ negated_categories (foldl (scan_category sl) d tbl) ↔
  c ∈ negated_categories d ∨
  ∃ data k, (c, data) ∈ tbl ∧ k ∈ keywords data ∧ deniedb sl k = true.
Proof.
  revert d. induction tbl as [|[c0 data0] tbl IH]; intros d; simpl.
  - split; [by left|]. intros [?|(data & k & ?%elem_of_nil & _)]; done.
  - rewrite IH. unfold scan_category. simpl.
    rewrite scan_keywords_negated. split.
    + intros [Hc|(data & k & Hin & Hk & Hden)].
      * apply elem_of_union in Hc as [Hc|Hc]; [|by left].
        destruct (existsb (deniedb sl) (keywords data0)) eqn:Hex;
          [|by apply elem_of_empty in Hc].
        apply elem_of_singleton in Hc as ->.
        apply existsb_exists in Hex as (k & Hk & Hden).
        right. exists data0, k. split; [left|].
        by rewrite list_elem_of_In.
      * right. exists data, k. split; [by right|done].
    + intros [Hc|(data & k & Hin & Hk & Hden)].
      * left. apply elem_of_union. by right.
      * apply elem_of_cons in Hin as [[= -> ->]|Hin].
        -- left. apply elem_of_union. left.
           assert (existsb (deniedb sl) (keywords data0) = true) as ->.
           { apply existsb_exists. exists k. by rewrite <- list_elem_of_In. }
           by apply elem_of_singleton.
        -- right. by exists data, k.
Qed.

Lemma scan_table_fixed tbl d :
  action (foldl (scan_category sl) d tbl) = action d ∧
  raw_sentence (foldl (scan_category sl) d tbl) = raw_sentence d.
Proof.
  revert d. induction tbl as [|item tbl IH]; intros d; simpl; [done|].
  destruct (IH (scan_category sl d item)) as [-> ->].
  apply scan_keywords_fixed.
Qed.
End table.

(** [detect_intents] raises nothing: it is the three scans over the table,
    started from the dict that holds the action and no category. *)
Lemma detect_intents_scan s sentence :
  detect_intents s sentence =
  Ok (foldl (scan_category (lower (chars sentence)))
        (Detected.mk (extract_action s sentence) ∅ ∅ sentence)
        (self_categories s)).
Proof.
  unfold detect_intents. apply for_each_Ok. intros d [c data].
  unfold scan_category. simpl. apply for_each_Ok. intros d' k.
  unfold scan_keyword. apply for_each_Ok. intros d'' p.
  apply record_match_Ok.
Qed.

(** ** Facts about the tables *)

Lemma INTENT_CATEGORIES_names :
  INTENT_CATEGORIES.*1 =
  ["networking"; "compute"; "database"; "storage"; "security"; "monitoring";
   "container"; "serverless"; "provider"; "os"].
Proof. reflexivity. Qed.

Lemma INTENT_CATEGORIES_NoDup : NoDup INTENT_CATEGORIES.*1.
Proof. apply (bool_decide_unpack _). by vm_compute. Qed.

Lemma INTENT_CATEGORIES_keywords_NoDup :
  Forall (λ item, NoDup (keywords item.2)) INTENT_CATEGORIES.
Proof. apply (bool_decide_unpack _). by vm_compute. Qed.

Lemma INTENT_CATEGORIES_word_ends :
  Forall (λ item, Forall (λ k, word_ends k = true) (keywords item.2))
    INTENT_CATEGORIES.
Proof. apply (bool_decide_unpack _). by vm_compute. Qed.

Lemma keyword_word_ends c data k :
  (c, data) ∈ INTENT_CATEGORIES → k ∈ keywords data → word_ends k = true.
Proof.
  intros Hin Hk. pose proof INTENT_CATEGORIES_word_ends as Hall.
  rewrite Forall_forall in Hall. specialize (Hall _ Hin). simpl in Hall.
  rewrite Forall_forall in Hall. by apply Hall.
Qed.

(** ** What a detection returns *)

Lemma detect_intents_spec s sentence :
  NoDup (self_categories s).*1 →
  Forall (λ item, NoDup (keywords item.2)) (self_categories s) →
  ∃ d, detect_intents s sentence = Ok d ∧
    action d = extract_action s sentence ∧
    raw_sentence d = sentence ∧
    (∀ c data, (c, data) ∈ self_categories s →
       categories d !! c
       = entry (affirmed_keywords (lower (chars sentence)) data)) ∧
    (∀ c, c ∉ (self_categories s).*1 → categories d !! c = None) ∧
    (∀ c, c ∈ negated_categories d ↔
       ∃ data k, (c, data) ∈ self_categories s ∧ k ∈ keywords data ∧
                 deniedb (lower (chars sentence)) k = true).
Proof.
  intros Hnd Hkw. eexists. split; [apply detect_intents_scan|].
  destruct (scan_table_fixed (lower (chars sentence)) (self_categories s)
    (Detected.mk (extract_action s sentence) ∅ ∅ sentence)) as [-> ->].
  split_and!; [done|done|..].
  - intros c data Hin. by apply scan_table_categories.
  - intros c Hc. by rewrite scan_table_categories_other.
  - intros c. rewrite scan_table_negated. simpl. split.
    + intros [?%elem_of_empty|?]; done.
    + by right.
Qed.

Lemma detect_init sentence :
  ∃ d, detect_intents init sentence = Ok d ∧
    action d = extract_action init sentence ∧
    raw_sentence d = sentence ∧
    (∀ c data, (c, data) ∈ INTENT_CATEGORIES →
       categories d !! c
       = entry (affirmed_keywords (lower (chars sentence)) data)) ∧
    (∀ c, c ∉ INTENT_CATEGORIES.*1 → categories d !! c = None) ∧
    (∀ c, c ∈ negated_categories d ↔
       ∃ data k, (c, data) ∈ INTENT_CATEGORIES ∧ k ∈ keywords data ∧
                 deniedb (lower (chars sentence)) k = true).
Proof.
  apply (detect_intents_spec init).
  - apply INTENT_CATEGORIES_NoDup.
  - apply INTENT_CATEGORIES_keywords_NoDup.
Qed.

(** C2.  [validate_intent] answers [false] exactly when the [categories]
    mapping is empty or some category name is both a key of [categories]
    and a member of [negated_categories]; in every other case it answers
    [true].  The embedding makes it a function from the result to a
    boolean: the result is read and nothing else is returned, so there is
    no changed result to speak of. *)
Theorem validate_intent_false_iff (detected : Detected.t) :
  validate_intent detected = false ↔
  categories detected = ∅ ∨
  ∃ c, c ∈ dom (categories detected) ∧ c ∈ negated_categories detected.
Proof.
  unfold validate_intent. case_bool_decide as Hinter.
  - split; [|done]. intros _. right.
    apply set_choose_L in Hinter as [c Hc]. exists c.
    apply elem_of_intersection in Hc as [? ?]. done.
  - case_bool_decide as Hempty.
    + split; [|done]. intros _. by left.
    + split; [done|]. intros [?|(c & Hc1 & Hc2)]; [done|].
      assert (c ∈ negated_categories detected ∩ dom (categories detected)) as Hc
        by (by apply elem_of_intersection).
      rewrite Hinter in Hc. by apply elem_of_empty in Hc.
Qed.

(** C4.  The round-trip scenario: for the sentence "Deploy a small Ubuntu
    server on AWS with MySQL", [detect_intents] returns without raising;
    [categories] holds compute with "server" and "small", os with "ubuntu",
    provider with "aws" and database with "mysql", and nothing else; the
    action is "create"; no category is negated; [validate_intent] is true;
    [normalize_provider] gives "aws" and [extract_os] gives "Ubuntu". *)
Theorem round_trip_scenario :
  ∃ d,
    detect_intents init "Deploy a small Ubuntu server on AWS with MySQL" = Ok d ∧
    categories d = {[ "compute" := ["server"; "small"];
                      "os" := ["ubuntu"];
                      "provider" := ["aws"];
                      "database" := ["mysql"] ]} ∧
    action d = "create" ∧
    negated_categories d = ∅ ∧
    validate_intent d = true ∧
    normalize_provider d = Ok (Some "aws") ∧
    extract_os d = Ok (Some "Ubuntu").
Proof.
  eexists. split; [vm_compute; reflexivity|].
  split_and!; vm_compute; reflexivity.
Qed.

(** ** The negation window *)

Lemma negation_in_word_spec patterns w :
  negation_in_word patterns w = true ↔
  ∃ pat, pat ∈ patterns ∧ re_search true pat w = true.
Proof.
  induction patterns as [|pat patterns IH]; simpl.
  - split; [done|]. by intros (pat & ?%elem_of_nil & _).
  - destruct (re_search true pat w) eqn:Hs.
    + split; [|done]. intros _. exists pat. split; [left|done].
    + rewrite IH. split.
      * intros (pat' & ? & ?). exists pat'. split; [by right|done].
      * intros (pat' & [->|?]%elem_of_cons & ?); [congruence|by exists pat'].
Qed.

Lemma negation_in_words_spec ws :
  negation_in_words ws = true ↔
  ∃ w, w ∈ ws ∧ negation_in_word NEGATION_PATTERNS w = true.
Proof.
  induction ws as [|w ws IH]; cbn [negation_in_words].
  - split; [done|]. by intros (w & ?%elem_of_nil & _).
  - destruct (negation_in_word NEGATION_PATTERNS w) eqn:Hw.
    + split; [|done]. intros _. exists w. split; [left|done].
    + rewrite IH. split.
      * intros (w' & ? & ?). exists w'. split; [by right|done].
      * intros (w' & [->|?]%elem_of_cons & ?); [congruence|by exists w'].
Qed.

Lemma elem_of_last_n {A} (n : nat) (l : list A) (x : A) :
  x ∈ last_n n l ↔ ∃ i, i < n ∧ reverse l !! i = Some x.
Proof.
  unfold last_n. rewrite <- elem_of_reverse, reverse_drop, elem_of_take.
  split.
  - intros (i & Hi & Hlt). exists i. split; [lia|done].
  - intros (i & Hlt & Hi). exists i. split; [done|].
    apply lookup_lt_Some in Hi. rewrite length_reverse in Hi. lia.
Qed.

Lemma has_negation_tokens t pos :
  has_negation t pos = true ↔
  ∃ d w, 1 ≤ d ≤ 5 ∧ token_before t pos d = Some w ∧
         negation_in_word NEGATION_PATTERNS w = true.
Proof.
  unfold has_negation. rewrite negation_in_words_spec. split.
  - intros (w & (i & Hi & Hw)%elem_of_last_n & Hcue).
    exists (S i), w. split_and!; [lia|lia|done|done].
  - intros (d & w & [Hd1 Hd5] & Hw & Hcue). exists w. split; [|done].
    apply elem_of_last_n. destruct d as [|i]; [lia|].
    exists i. split; [lia|done].
Qed.

(** C1, as amended.  A keyword occurrence at offset [pos] is negated
    exactly when one of the (at most) five whitespace-delimited tokens of
    the text before [pos] holds a negation cue: [has_negation] is true iff
    the token at some distance [d] between 1 and 5 before the position
    matches a negation pattern.  A cue at distance 5 negates and a cue at
    distance 6 does not: in "no x x x x vpc" the cue is the fifth token
    before "vpc", which is negated (networking ends up in
    [negated_categories] only); in "no x x x x x vpc" the cue is the sixth
    token before "vpc", which is not negated (networking is affirmed). *)
Theorem negation_window :
  (∀ t pos,
     has_negation t pos = true ↔
     ∃ d w, 1 ≤ d ≤ 5 ∧ token_before t pos d = Some w ∧
            negation_in_word NEGATION_PATTERNS w = true) ∧
  (token_before (chars "no x x x x vpc") 11 5 = Some (chars "no") ∧
   has_negation (chars "no x x x x vpc") 11 = true ∧
   ∃ d, detect_intents init "no x x x x vpc" = Ok d ∧
        negated_categories d = {["networking"]} ∧ categories d = ∅) ∧
  (token_before (chars "no x x x x x vpc") 13 6 = Some (chars "no") ∧
   has_negation (chars "no x x x x x vpc") 13 = false ∧
   ∃ d, detect_intents init "no x x x x x vpc" = Ok d ∧
        negated_categories d = ∅ ∧
        categories d = {["networking" := ["vpc"]]}).
Proof.
  split_and!.
  - apply has_negation_tokens.
  - by vm_compute.
  - by vm_compute.
  - eexists. split; [vm_compute; reflexivity|].
    split; vm_compute; reflexivity.
  - by vm_compute.
  - by vm_compute.
  - eexists. split; [vm_compute; reflexivity|].
    split; vm_compute; reflexivity.
Qed.

(** The boundary example as C1 words it: in "no x x x x x vpc" the keyword
    starts at offset 13, six tokens after the cue, and is not negated. *)
Lemma negation_window_counterexample :
  re_finditer true ["vpc"] (chars "no x x x x x vpc") = [13] ∧
  has_negation (chars "no x x x x x vpc") 13 = false.
Proof. split; by vm_compute. Qed.

(** ** Whole words *)

Lemma is_word_lower c : is_word (lower_char c) = is_word c.
Proof. by destruct c as [[] [] [] [] [] [] [] []]. Qed.

Lemma char_eq_word ic c p : char_eq ic c p = true → is_word c = is_word p.
Proof.
  unfold char_eq. destruct ic; intros Heq%bool_decide_eq_true.
  - by rewrite <- (is_word_lower c), Heq, is_word_lower.
  - by subst.
Qed.

Lemma text_eq_head ic mid w :
  text_eq ic mid w → word_opt (head mid) = word_opt (head (chars w)).
Proof.
  unfold text_eq. destruct 1 as [|c p mid lit Hc _]; simpl; [done|].
  by apply char_eq_word in Hc.
Qed.

Lemma text_eq_last ic mid w :
  text_eq ic mid w → word_opt (last mid) = word_opt (last (chars w)).
Proof.
  unfold text_eq. intros Heq%Forall2_last.
  destruct Heq as [c p Hc|]; simpl; [|done]. by apply char_eq_word in Hc.
Qed.

Lemma word_ends_boundaries ic w pre mid post :
  word_ends w = true → text_eq ic mid w →
  (boundary (last pre) (mid ++ post) = true ↔ word_opt (last pre) = false) ∧
  (boundary (last (pre ++ mid)) post = true ↔ word_opt (head post) = false).
Proof.
  intros [Hh Hl]%andb_true_iff Hmid.
  rewrite <- (text_eq_head ic mid w Hmid) in Hh.
  rewrite <- (text_eq_last ic mid w Hmid) in Hl.
  destruct mid as [|c mid]; [done|]. unfold boundary. split.
  - simpl in *. rewrite Hh. by destruct (word_opt (last pre)).
  - rewrite last_app. destruct (last (c :: mid)) as [c'|]; [|done].
    simpl in *. rewrite Hl. by destruct (word_opt (head post)).
Qed.

Lemma occurs_flanked ic w t :
  word_ends w = true → occurs ic w t ↔ flanked ic w t.
Proof.
  intros Hw. split.
  - intros (n & pre & mid & post & -> & _ & Hmid & Hb1 & Hb2).
    destruct (word_ends_boundaries ic w pre mid post Hw Hmid) as [H1 H2].
    exists pre, mid, post. split_and!; [done|done|by apply H1|by apply H2].
  - intros (pre & mid & post & -> & Hmid & Hb1 & Hb2).
    destruct (word_ends_boundaries ic w pre mid post Hw Hmid) as [H1 H2].
    exists (length pre), pre, mid, post.
    split_and!; [done|done|done|by apply H1|by apply H2].
Qed.

Lemma negation_cues_word_ends : Forall (λ cue, word_ends cue = true) negation_cues.
Proof. apply (bool_decide_unpack _). by vm_compute. Qed.

Lemma negation_in_word_occurs w :
  negation_in_word NEGATION_PATTERNS w = true ↔
  ∃ cue, cue ∈ negation_cues ∧ occurs true cue w.
Proof.
  rewrite negation_in_word_spec. unfold negation_cues. split.
  - intros (pat & Hpat & (cue & Hcue & Hocc)%re_search_spec).
    exists cue. split; [|done]. apply list_elem_of_In, in_concat.
    exists pat. by rewrite <- !list_elem_of_In.
  - intros (cue & Hcue & Hocc).
    apply list_elem_of_In, in_concat in Hcue as (pat & Hpat & Hcue).
    rewrite <- !list_elem_of_In in *.
    exists pat. split; [done|]. apply re_search_spec. by exists cue.
Qed.

(** C10.  A token of the window triggers negation exactly when one of the
    nine cue words stands somewhere inside it, compared without regard to
    case, with no word character directly before it and none directly
    after it; the token need not equal the cue.  So "not," and
    "no-database" are negating tokens and negate a keyword that follows
    them, while "cannot" is not and does not. *)
Theorem negation_cue_inside_token :
  negation_cues = ["no"; "not"; "without"; "don't"; "dont"; "never";
                   "exclude"; "except"; "excluding"] ∧
  (∀ w : text,
     negation_in_word NEGATION_PATTERNS w = true ↔
     ∃ cue, cue ∈ negation_cues ∧ flanked true cue w) ∧
  (negation_in_word NEGATION_PATTERNS (chars "not,") = true ∧
   has_negation (chars "not, vpc") 5 = true) ∧
  (negation_in_word NEGATION_PATTERNS (chars "no-database") = true ∧
   has_negation (chars "no-database vpc") 12 = true) ∧
  (negation_in_word NEGATION_PATTERNS (chars "cannot") = false ∧
   has_negation (chars "cannot vpc") 7 = false).
Proof.
  split; [reflexivity|]. split.
  - intros w. rewrite negation_in_word_occurs.
    pose proof negation_cues_word_ends as Hends.
    rewrite Forall_forall in Hends.
    split; intros (cue & Hcue & Hocc); exists cue; (split; [done|]);
      by apply (occurs_flanked true cue w (Hends cue Hcue)).
  - split_and!; by vm_compute.
Qed.

(** ** Action extraction *)

Lemma ACTION_VERBS_word_ends :
  Forall (λ item, Forall (λ v, word_ends v = true) item.2) ACTION_VERBS.
Proof. apply (bool_decide_unpack _). by vm_compute. Qed.

Lemma verb_word_ends a verbs v :
  (a, verbs) ∈ ACTION_VERBS → v ∈ verbs → word_ends v = true.
Proof.
  intros Hin Hv. pose proof ACTION_VERBS_word_ends as Hall.
  rewrite Forall_forall in Hall. specialize (Hall _ Hin). simpl in Hall.
  rewrite Forall_forall in Hall. by apply Hall.
Qed.

Lemma verb_found_spec verbs t :
  verb_found verbs t = true ↔ ∃ v, v ∈ verbs ∧ occurs false v t.
Proof.
  induction verbs as [|v verbs IH]; cbn [verb_found].
  - split; [done|]. by intros (v & ?%elem_of_nil & _).
  - destruct (re_search false [v] t) eqn:Hs.
    + split; [|done]. intros _.
      apply re_search_spec in Hs as (w & ->%list_elem_of_singleton & ?).
      exists v. split; [left|done].
    + rewrite IH. split.
      * intros (v' & ? & ?). exists v'. split; [by right|done].
      * intros (v' & [->|?]%elem_of_cons & Hocc); [|by exists v'].
        assert (re_search false [v] t = true) as Hcontra; [|congruence].
        apply re_search_spec. exists v. split; [left|done].
Qed.

Lemma action_found_first before a verbs after t :
  (∀ a' vs, (a', vs) ∈ before → verb_found vs t = false) →
  verb_found verbs t = true →
  action_found (before ++ (a, verbs) :: after) t = Some a.
Proof.
  intros Hbefore Hverbs. induction before as [|[a' vs] before IH]; simpl.
  - by rewrite Hverbs.
  - rewrite (Hbefore a' vs) by left. apply IH.
    intros a'' vs' ?. apply (Hbefore a''). by right.
Qed.

Lemma action_found_none actions t :
  (∀ a vs, (a, vs) ∈ actions → verb_found vs t = false) →
  action_found actions t = None.
Proof.
  intros Hall. induction actions as [|[a vs] actions IH]; simpl; [done|].
  rewrite (Hall a vs) by left. apply IH.
  intros a' vs' ?. apply (Hall a'). by right.
Qed.

Lemma verb_found_false verbs t :
  (∀ v, v ∈ verbs → ¬ occurs false v t) → verb_found verbs t = false.
Proof.
  intros Hall. apply not_true_is_false.
  intros (v & Hv & Hocc)%verb_found_spec. by apply (Hall v).
Qed.

Lemma extract_action_init sentence :
  extract_action init sentence =
  match action_found ACTION_VERBS (lower (chars sentence)) with
  | Some action_type => action_type
  | None => "create"
  end.
Proof. reflexivity. Qed.

(** C3.  [extract_action] goes through the actions in the order of the
    lexicon, create, delete, modify, query, and returns the first action
    one of whose verbs stands in the lowered sentence as a whole word (no
    word character directly before or after it); it returns "create" when
    no verb of any action does.  Hence a sentence that holds a create verb
    and a delete verb yields "create", whichever comes first in the text. *)
Theorem extract_action_priority :
  ACTION_VERBS.*1 = ["create"; "delete"; "modify"; "query"] ∧
  (∀ sentence before a verbs after,
     ACTION_VERBS = before ++ (a, verbs) :: after →
     (∀ a' vs v, (a', vs) ∈ before → v ∈ vs →
                 ¬ flanked false v (lower (chars sentence))) →
     (∃ v, v ∈ verbs ∧ flanked false v (lower (chars sentence))) →
     extract_action init sentence = a) ∧
  (∀ sentence,
     (∀ a vs v, (a, vs) ∈ ACTION_VERBS → v ∈ vs →
                ¬ flanked false v (lower (chars sentence))) →
     extract_action init sentence = "create") ∧
  (∀ sentence create_verbs delete_verbs vc vd,
     ("create", create_verbs) ∈ ACTION_VERBS → vc ∈ create_verbs →
     ("delete", delete_verbs) ∈ ACTION_VERBS → vd ∈ delete_verbs →
     flanked false vc (lower (chars sentence)) →
     flanked false vd (lower (chars sentence)) →
     extract_action init sentence = "create") ∧
  extract_action init "Remove the old server and deploy a new one" = "create" ∧
  extract_action init "Deploy a new server and remove the old one" = "create".
Proof.
  split; [reflexivity|]. split_and!.
  - intros sentence before a verbs after Htable Hbefore (v & Hv & Hocc).
    rewrite extract_action_init, Htable.
    rewrite (action_found_first before a verbs after); [done| |].
    + intros a' vs Hin. apply verb_found_false. intros v' Hv' Hocc'.
      apply (Hbefore a' vs v' Hin Hv'). apply occurs_flanked; [|done].
      apply (verb_word_ends a' vs); [|done].
      rewrite Htable. apply elem_of_app. by left.
    + apply verb_found_spec. exists v. split; [done|].
      apply occurs_flanked; [|done].
      apply (verb_word_ends a verbs); [|done].
      rewrite Htable. apply elem_of_app. right. left.
  - intros sentence Hnone. rewrite extract_action_init.
    rewrite action_found_none; [done|].
    intros a vs Hin. apply verb_found_false. intros v Hv Hocc.
    apply (Hnone a vs v Hin Hv). apply occurs_flanked; [|done].
    by apply (verb_word_ends a vs).
  - intros sentence create_verbs delete_verbs vc vd Hc Hvc _ _ Hocc _.
    assert (create_verbs = ["create"; "deploy"; "launch"; "provision";
                            "setup"; "set up"; "add"; "build"]) as Heq.
    { unfold ACTION_VERBS in Hc.
      repeat (apply elem_of_cons in Hc as [Hc|Hc]; [by simplify_eq|]).
      by apply elem_of_nil in Hc. }
    rewrite extract_action_init.
    change ACTION_VERBS with ([] ++ ("create", ["create"; "deploy"; "launch";
      "provision"; "setup"; "set up"; "add"; "build"]) :: tail ACTION_VERBS).
    rewrite action_found_first; [done| |].
    + by intros a' vs ?%elem_of_nil.
    + apply verb_found_spec. exists vc. rewrite <- Heq. split; [done|].
      apply occurs_flanked; [|done]. by apply (verb_word_ends "create" create_verbs).
  - by vm_compute.
  - by vm_compute.
Qed.

(** The priority of create over delete, on a sentence whose delete verb
    comes first. *)
Lemma extract_action_priority_witness :
  flanked false "deploy" (lower (chars "Remove the old server and deploy it")) ∧
  flanked false "remove" (lower (chars "Remove the old server and deploy it")) ∧
  extract_action init "Remove the old server and deploy it" = "create".
Proof.
  assert (flanked false "deploy"
            (lower (chars "Remove the old server and deploy it"))) as Hc.
  { exists (chars "remove the old server and "), (chars "deploy"), (chars " it").
    split_and!; [reflexivity|repeat constructor|reflexivity|reflexivity]. }
  assert (flanked false "remove"
            (lower (chars "Remove the old server and deploy it"))) as Hd.
  { exists [], (chars "remove"), (chars " the old server and deploy it").
    split_and!; [reflexivity|repeat constructor|reflexivity|reflexivity]. }
  split_and!; [done|done|].
  apply (proj1 (proj2 (proj2 (proj2 extract_action_priority)))
           "Remove the old server and deploy it"
           ["create"; "deploy"; "launch"; "provision"; "setup"; "set up";
            "add"; "build"]
           ["delete"; "remove"; "destroy"; "terminate"; "tear down"]
           "deploy" "remove").
  - left.
  - right; left.
  - right; left.
  - right; left.
  - exact Hc.
  - exact Hd.
Defined.

(** ** Keywords in a sentence *)

Lemma NoDup_fst_unique {A B} (l : list (A * B)) x y1 y2 :
  NoDup l.*1 → (x, y1) ∈ l → (x, y2) ∈ l → y1 = y2.
Proof.
  induction l as [|[a b] l IH]; intros Hnd H1 H2.
  - by apply elem_of_nil in H1.
  - apply NoDup_cons in Hnd as [Ha Hnd].
    assert (∀ y, (a, y) ∈ l → False) as Hfresh.
    { intros y Hy. apply Ha. apply list_elem_of_fmap. by exists (a, y). }
    apply elem_of_cons in H1 as [H1|H1], H2 as [H2|H2]; simplify_eq.
    + done.
    + by destruct (Hfresh y2).
    + by destruct (Hfresh y1).
    + by apply IH.
Qed.

Lemma table_data_unique c data data' :
  (c, data) ∈ INTENT_CATEGORIES → (c, data') ∈ INTENT_CATEGORIES →
  data = data'.
Proof. apply NoDup_fst_unique, INTENT_CATEGORIES_NoDup. Qed.

Lemma keyword_nonempty c data k :
  (c, data) ∈ INTENT_CATEGORIES → k ∈ keywords data → "" ∉ [k].
Proof.
  intros Hin Hk Hempty%list_elem_of_singleton. subst k.
  by pose proof (keyword_word_ends c data "" Hin Hk).
Qed.

Lemma silent_keyword sl k :
  ¬ occurs true k sl → affirmedb sl k = false ∧ deniedb sl k = false.
Proof.
  intros Hnil%word_positions_nil%finditer_none.
  unfold affirmedb, deniedb. by rewrite Hnil.
Qed.

Lemma single_keyword sl k p :
  "" ∉ [k] → word_positions true [k] sl = [p] →
  affirmedb sl k = negb (has_negation sl (Z.of_nat p)) ∧
  deniedb sl k = has_negation sl (Z.of_nat p).
Proof.
  intros Hne Hp. unfold affirmedb, deniedb, re_finditer.
  rewrite (finditer_single true [k] 0 None sl p Hne Hp). simpl.
  by rewrite !orb_false_r.
Qed.

Lemma only_keywordb_true sl c k :
  only_keywordb sl c k = true → only_keyword sl c k.
Proof.
  unfold only_keywordb, only_keyword. intros Hall c' data' k' Hin Hk' Hne.
  rewrite forallb_forall in Hall.
  apply list_elem_of_In, Hall in Hin. simpl in Hin.
  rewrite forallb_forall in Hin.
  apply list_elem_of_In, Hin in Hk'.
  apply orb_true_iff in Hk' as [Heq|Hnil].
  - by apply bool_decide_eq_true in Heq.
  - apply bool_decide_eq_true in Hnil. by apply word_positions_nil.
Qed.

Lemma filter_none {A} (P : A → Prop) `{∀ x, Decision (P x)} (l : list A) :
  (∀ y, y ∈ l → ¬ P y) → filter P l = [].
Proof.
  induction l as [|y l IH]; intros Hnone; [done|].
  rewrite filter_cons_False by (apply Hnone; left).
  apply IH. intros z ?. apply Hnone. by right.
Qed.

Lemma filter_only {A} (P : A → Prop) `{∀ x, Decision (P x)} (l : list A) x :
  NoDup l → x ∈ l → P x → (∀ y, y ∈ l → y ≠ x → ¬ P y) →
  filter P l = [x].
Proof.
  induction l as [|y l IH]; intros Hnd Hx HP Hothers.
  - by apply elem_of_nil in Hx.
  - apply NoDup_cons in Hnd as [Hy Hnd].
    apply elem_of_cons in Hx as [->|Hx].
    + rewrite filter_cons_True by done. f_equal.
      apply filter_none. intros z Hz. apply Hothers; [by right|].
      by intros ->.
    + rewrite filter_cons_False.
      * apply IH; [done..|]. intros z ?. apply Hothers. by right.
      * apply Hothers; [left|]. by intros ->.
Qed.

(** ** The tokens before a keyword *)

Lemma split_from_spaces ws t :
  Forall (λ c, is_space c = true) ws →
  split_from [] (ws ++ t) = split_from [] t.
Proof.
  induction 1 as [|c ws Hc _ IH]; simpl; [done|]. by rewrite Hc.
Qed.

Lemma split_from_token tok w rest :
  Forall (λ c, is_space c = false) w →
  split_from tok (w ++ rest) = split_from (tok ++ w) rest.
Proof.
  intros Hw. revert tok. induction Hw as [|c w Hc _ IH]; intros tok; simpl.
  - by rewrite app_nil_r.
  - by rewrite Hc, IH, <- (assoc_L (++)).
Qed.

Lemma split_from_stop tok rest :
  tok ≠ [] → from_option is_space true (head rest) = true →
  split_from tok rest = tok :: split_from [] rest.
Proof.
  intros Htok Hrest. destruct rest as [|c rest]; simpl in *.
  - by destruct tok.
  - rewrite Hrest. by destruct tok.
Qed.

Lemma tokens_split s toks : tokens s toks → split s = toks.
Proof.
  unfold split. induction 1 as [ws Hws|ws w rest toks Hws Hne Hw Hrest _ IH].
  - rewrite <- (app_nil_r ws). by rewrite split_from_spaces.
  - rewrite split_from_spaces, split_from_token by done. simpl.
    by rewrite split_from_stop, IH.
Qed.

Lemma tokens_space c s toks :
  is_space c = true → tokens s toks → tokens (c :: s) toks.
Proof.
  intros Hc [ws Hws|ws w rest toks' Hws Hne Hw Hrest Htoks].
  - apply tokens_end. by constructor.
  - apply (tokens_next (c :: ws)); [by constructor|done..].
Qed.

Lemma split_from_tokens t :
  tokens t (split_from [] t) ∧
  ∀ tok, tok ≠ [] → Forall (λ c, is_space c = false) tok →
         tokens (tok ++ t) (split_from tok t).
Proof.
  induction t as [|c t [IH0 IH]].
  - split; [by apply tokens_end|]. intros tok Hne Htok. simpl.
    destruct tok as [|a tok]; [done|].
    apply (tokens_next [] (a :: tok) [] []); [done..|by apply tokens_end].
  - assert (is_space c = false →
            ∀ tok, Forall (λ c, is_space c = false) tok →
                   tokens (tok ++ c :: t) (split_from (tok ++ [c]) t)) as Hgo.
    { intros Hc tok Htok. rewrite (cons_middle c), (assoc_L (++)).
      apply IH; [by destruct tok|].
      apply Forall_app. split; [done|by constructor]. }
    simpl. destruct (is_space c) eqn:Hc.
    + split; [by apply tokens_space|]. intros tok Hne Htok.
      destruct tok as [|a tok]; [done|].
      apply (tokens_next [] (a :: tok) (c :: t)); [done..|].
      by apply tokens_space.
    + split; [by apply (Hgo eq_refl [])|].
      intros tok _ Htok. by apply Hgo.
Qed.

Lemma tokens_of_split s : tokens s (split s).
Proof. apply split_from_tokens. Qed.

Lemma slice_to_take p t : slice_to (Z.of_nat p) t = take p t.
Proof.
  unfold slice_to. rewrite (proj2 (Z.ltb_ge _ _)) by lia.
  by rewrite Nat2Z.id.
Qed.

Lemma has_negation_window t p :
  has_negation t (Z.of_nat p) = true ↔ cue_in_window (take p t).
Proof.
  pose proof negation_cues_word_ends as Hends.
  rewrite Forall_forall in Hends.
  rewrite has_negation_tokens. unfold token_before, cue_in_window.
  rewrite slice_to_take. split.
  - intros (d & w & [Hd1 Hd5] & Hw & Hcue).
    destruct d as [|i]; [lia|].
    apply negation_in_word_occurs in Hcue as (cue & Hin & Hocc).
    pose proof (lookup_lt_Some _ _ _ Hw) as Hlt.
    rewrite length_reverse in Hlt. rewrite reverse_lookup in Hw by done.
    apply list_elem_of_split_length in Hw as (earlier & later & Heq & Hlen).
    exists (split (take p t)), earlier, w, later, cue.
    split_and!; [apply tokens_of_split|done| |done|].
    + apply (f_equal length) in Heq. rewrite length_app in Heq.
      simpl in Heq. lia.
    + by apply occurs_flanked; [apply Hends|].
  - intros (toks & earlier & w & later & cue & Htoks%tokens_split & -> &
            Hlen & Hin & Hfl).
    exists (S (length later)), w. split_and!; [lia|lia| |].
    + rewrite Htoks, reverse_app, reverse_cons.
      rewrite lookup_app_l by (rewrite length_app, length_reverse; simpl; lia).
      rewrite lookup_app_r by (rewrite length_reverse; lia).
      by rewrite length_reverse, Nat.sub_diag.
    + apply negation_in_word_occurs. exists cue. split; [done|].
      by apply occurs_flanked; [apply Hends|].
Qed.

Lemma no_cue_in_window t p :
  has_negation t (Z.of_nat p) = false → ¬ cue_in_window (take p t).
Proof. intros Hfalse Hcue%has_negation_window. congruence. Qed.

Lemma single_keyword_lists sentence c data k p (negated : bool) :
  (c, data) ∈ INTENT_CATEGORIES → k ∈ keywords data →
  (∀ n, occurs_at true k (lower (chars sentence)) n ↔ n = p) →
  only_keyword (lower (chars sentence)) c k →
  has_negation (lower (chars sentence)) (Z.of_nat p) = negated →
  ∃ d, detect_intents init sentence = Ok d ∧
       categories d = (if negated then ∅ else {[c := [k]]}) ∧
       negated_categories d = (if negated then {[c]} else ∅).
Proof.
  intros Hin Hk Hp%word_positions_single Honly Hneg.
  set (sl := lower (chars sentence)) in *.
  destruct (detect_init sentence) as (d & Hd & _ & _ & Hcats & Hnone & Hnegs).
  fold sl in Hcats, Hnegs.
  destruct (single_keyword sl k p (keyword_nonempty c data k Hin Hk) Hp)
    as [Haff Hden].
  rewrite Hneg in Haff, Hden.
  assert (∀ c' data' k', (c', data') ∈ INTENT_CATEGORIES →
            k' ∈ keywords data' → (c', k') ≠ (c, k) →
            affirmedb sl k' = false ∧ deniedb sl k' = false) as Hsilent.
  { intros c' data' k' Hin' Hk' Hne. apply silent_keyword.
    by apply (Honly c' data' k'). }
  exists d. split_and!; [done|..].
  - apply map_eq. intros c'.
    assert (c' ≠ c → categories d !! c' = None) as Hother.
    { intros Hne.
      destruct (decide (c' ∈ INTENT_CATEGORIES.*1)) as [Hc'|Hc'];
        [|by apply Hnone].
      apply list_elem_of_fmap in Hc' as ([c'' data'] & -> & Hin').
      simpl in *. rewrite (Hcats c'' data' Hin').
      unfold affirmed_keywords. rewrite filter_none; [done|].
      intros k' Hk'.
      destruct (Hsilent c'' data' k' Hin' Hk') as [-> _]; [congruence|done]. }
    destruct negated.
    + rewrite lookup_empty.
      destruct (decide (c' = c)) as [->|Hne]; [|by apply Hother].
      rewrite (Hcats c data Hin). unfold affirmed_keywords.
      rewrite filter_none; [done|]. intros k' Hk'.
      destruct (decide (k' = k)) as [->|Hne]; [by rewrite Haff|].
      destruct (Hsilent c data k' Hin Hk') as [-> _]; [congruence|done].
    + destruct (decide (c' = c)) as [->|Hne].
      * rewrite lookup_singleton_eq, (Hcats c data Hin).
        unfold affirmed_keywords.
        rewrite (filter_only _ (keywords data) k); [done| |done| |].
        -- pose proof INTENT_CATEGORIES_keywords_NoDup as Hnd.
           rewrite Forall_forall in Hnd. apply (Hnd _ Hin).
        -- by rewrite Haff.
        -- intros k' Hk' Hne.
           destruct (Hsilent c data k' Hin Hk') as [-> _]; [congruence|done].
      * rewrite lookup_singleton_ne by done. by apply Hother.
  - assert (∀ c', c' ∈ negated_categories d → c' = c ∧ negated = true)
      as Honly_c.
    { intros c' (data' & k' & Hin' & Hk' & Hden')%Hnegs.
      destruct (decide ((c', k') = (c, k))) as [[= -> ->]|Hne].
      - split; [done|congruence].
      - destruct (Hsilent c' data' k' Hin' Hk' Hne) as [_ Hsil]. congruence. }
    destruct negated.
    + apply set_eq. intros c'. rewrite elem_of_singleton. split.
      * by intros [-> _]%Honly_c.
      * intros ->. apply Hnegs. by exists data, k.
    + apply elem_of_equiv_empty_L. intros c' [_ ?]%Honly_c. done.
Qed.

(** C5, as amended.  The lowered sentence holds, as whole words, exactly
    one occurrence (at offset [p] and nowhere else) of exactly one keyword
    [k] of exactly one category [c]: no other keyword of the table occurs
    (a keyword that two categories list counts once for each).  The window
    of the occurrence is the last five whitespace-delimited tokens of the
    text before [p]; when the keyword does not start its own token, the
    part of that token before [p] is the nearest token of the window.
    When no token of the window holds a negation cue as a whole word,
    [detect_intents] returns a result whose [categories] is exactly [c]
    with the list [k], and no category is negated; when some token of the
    window holds one, [categories] is empty and exactly [c] is negated.
    So "vpc, no thanks", where the cue follows the keyword, is affirmed,
    and "no-vpc", a single token, is negated.  Matching is by word
    boundaries and not by containment: a keyword that directly follows a
    word character, or is directly followed by one, does not occur there
    as a whole word, and "db" inside "adbc" yields no match and no
    category. *)
Theorem single_keyword_detection :
  (∀ sentence c data k p,
     (c, data) ∈ INTENT_CATEGORIES → k ∈ keywords data →
     (∀ n, occurs_at true k (lower (chars sentence)) n ↔ n = p) →
     only_keyword (lower (chars sentence)) c k →
     ¬ cue_in_window (take p (lower (chars sentence))) →
     ∃ d, detect_intents init sentence = Ok d ∧
          categories d = {[c := [k]]} ∧ negated_categories d = ∅) ∧
  (∀ sentence c data k p,
     (c, data) ∈ INTENT_CATEGORIES → k ∈ keywords data →
     (∀ n, occurs_at true k (lower (chars sentence)) n ↔ n = p) →
     only_keyword (lower (chars sentence)) c k →
     cue_in_window (take p (lower (chars sentence))) →
     ∃ d, detect_intents init sentence = Ok d ∧
          categories d = ∅ ∧ negated_categories d = {[c]}) ∧
  ((∃ d, detect_intents init "vpc, no thanks" = Ok d ∧
         categories d = {["networking" := ["vpc"]]} ∧
         negated_categories d = ∅) ∧
   (cue_in_window (take 3 (lower (chars "no-vpc"))) ∧
    ∃ d, detect_intents init "no-vpc" = Ok d ∧
         categories d = ∅ ∧ negated_categories d = {["networking"]})) ∧
  (∀ c data k pre post,
     (c, data) ∈ INTENT_CATEGORIES → k ∈ keywords data →
     word_opt (last pre) = true ∨ word_opt (head post) = true →
     ¬ occurs_at true k (pre ++ chars k ++ post) (length pre)) ∧
  (¬ occurs true "db" (chars "adbc") ∧
   re_finditer true ["db"] (chars "adbc") = [] ∧
   ∃ d, detect_intents init "adbc" = Ok d ∧ categories d = ∅).
Proof.
  split_and!.
  - intros sentence c data k p Hin Hk Hp Honly Hwin.
    apply (single_keyword_lists sentence c data k p false); [done..|].
    apply not_true_is_false. by intros ?%has_negation_window.
  - intros sentence c data k p Hin Hk Hp Honly Hwin.
    apply (single_keyword_lists sentence c data k p true); [done..|].
    by apply has_negation_window.
  - eexists. split; [vm_compute; reflexivity|].
    split; vm_compute; reflexivity.
  - apply has_negation_window. by vm_compute.
  - eexists. split; [vm_compute; reflexivity|].
    split; vm_compute; reflexivity.
  - intros c data k pre post Hin Hk Hword Hocc.
    pose proof (keyword_word_ends c data k Hin Hk) as Hends.
    apply occurs_at_here in Hocc as [Hb1 (mid & post' & Heq & Hmid & Hb2)].
    assert (length mid = length (chars k)) as Hlen.
    { apply (Forall2_length _ _ _ Hmid). }
    symmetry in Heq. apply app_inj_1 in Heq as [-> ->]; [|done].
    destruct (word_ends_boundaries true k pre (chars k) post Hends Hmid)
      as [H1 H2].
    apply H1 in Hb1. apply H2 in Hb2. destruct Hword; congruence.
  - apply word_positions_nil. by vm_compute.
  - by vm_compute.
  - eexists. split; [vm_compute; reflexivity|]. by vm_compute.
Qed.

(** The single keyword "mysql" of "Setup a MySQL box". *)
Lemma single_keyword_detection_witness :
  ∃ d, detect_intents init "Setup a MySQL box" = Ok d ∧
       categories d = {["database" := ["mysql"]]} ∧ negated_categories d = ∅.
Proof.
  apply (proj1 single_keyword_detection "Setup a MySQL box" "database"
    {| keywords := ["database"; "db"; "rds"; "sql"; "mysql"; "postgres";
                    "postgresql"; "dynamodb"; "cosmosdb"; "firestore";
                    "mongodb"; "mariadb"];
       cloud_resources := [
         ("aws", ["db_instance"; "dynamodb_table"; "rds_cluster"]);
         ("azure", ["mssql_server"; "mysql_server"; "postgresql_server";
                    "cosmosdb_account"]);
         ("gcp", ["sql_database_instance"; "firestore_database"])] |}
    "mysql" 8).
  - do 2 right. left.
  - do 4 right. left.
  - apply word_positions_single. by vm_compute.
  - apply only_keywordb_true. by vm_compute.
  - apply no_cue_in_window. by vm_compute.
Defined.

(** The claim as C5 words it fails on "no-vpc": the sentence holds one
    occurrence of one keyword, "vpc" at offset 3; it holds no whitespace,
    so it is a single token and no token precedes the keyword's; yet
    networking is negated and [categories] is empty. *)
Lemma single_keyword_detection_counterexample :
  word_positions true ["vpc"] (lower (chars "no-vpc")) = [3] ∧
  only_keywordb (lower (chars "no-vpc")) "networking" "vpc" = true ∧
  forallb (λ c, negb (is_space c)) (chars "no-vpc") = true ∧
  (detect_intents init "no-vpc"
     ≫= λ d, Ok (categories d, negated_categories d))
  = Ok (∅, {["networking"]}).
Proof. split_and!; vm_compute; reflexivity. Qed.

(** ** Provider and operating system *)

Lemma starts_with_spec needle hay :
  starts_with needle hay = true ↔ ∃ post, hay = needle ++ post.
Proof.
  revert hay. induction needle as [|p needle IH]; intros hay; simpl.
  - split; [|done]. intros _. by exists hay.
  - destruct hay as [|c hay].
    + split; [done|]. by intros (post & ?).
    + rewrite andb_true_iff, bool_decide_eq_true, IH. split.
      * intros [-> (post & ->)]. by exists post.
      * intros (post & [= -> ->]). split; [done|]. by exists post.
Qed.

Lemma contains_spec needle hay :
  contains (chars needle) hay = true ↔ substring needle hay.
Proof.
  unfold substring. induction hay as [|c hay IH]; simpl.
  - rewrite orb_false_r, starts_with_spec. split.
    + intros (post & ->). by exists [], post.
    + intros (pre & post & Heq). symmetry in Heq.
      apply app_eq_nil in Heq as [-> Heq]. by exists post.
  - rewrite orb_true_iff, starts_with_spec, IH. split.
    + intros [(post & ->)|(pre & post & ->)].
      * by exists [], post.
      * by exists (c :: pre), post.
    + intros (pre & post & Heq). destruct pre as [|c' pre].
      * left. by exists post.
      * right. simplify_eq/=. by exists pre, post.
Qed.

Lemma normalize_provider_first d first rest :
  categories d !! "provider" = Some (first :: rest) →
  normalize_provider d =
  let keyword := lower (chars first) in
  if contains (chars "aws") keyword || contains (chars "amazon") keyword
  then Ok (Some "aws")
  else if contains (chars "azure") keyword
          || contains (chars "microsoft") keyword
  then Ok (Some "azure")
  else if contains (chars "gcp") keyword
          || contains (chars "google") keyword
  then Ok (Some "gcp")
  else Ok None.
Proof.
  intros Hl. unfold normalize_provider.
  rewrite bool_decide_eq_false_2.
  2:{ intros Hdom. apply Hdom, elem_of_dom. by rewrite Hl. }
  unfold dict_get. rewrite Hl. reflexivity.
Qed.

Lemma normalize_provider_absent d :
  categories d !! "provider" = None → normalize_provider d = Ok None.
Proof.
  intros Hl. unfold normalize_provider.
  by rewrite bool_decide_eq_true_2 by by apply not_elem_of_dom.
Qed.

Lemma normalize_provider_empty d :
  categories d !! "provider" = Some [] → normalize_provider d = Ok None.
Proof.
  intros Hl. unfold normalize_provider.
  rewrite bool_decide_eq_false_2.
  2:{ intros Hdom. apply Hdom, elem_of_dom. by rewrite Hl. }
  unfold dict_get. by rewrite Hl.
Qed.

Lemma entry_Some l l' : entry l = Some l' → l = l'.
Proof. destruct l; [done|]. by intros [= <-]. Qed.

Lemma filter_first_two {A} (P : A → Prop) `{∀ x, Decision (P x)}
    (a b : A) (rest : list A) :
  a ∈ filter P (a :: b :: rest) ∨ b ∈ filter P (a :: b :: rest) →
  ∃ tl, filter P (a :: b :: rest) = a :: tl ∨
        filter P (a :: b :: rest) = b :: tl.
Proof.
  intros Hin. destruct (decide (P a)) as [Ha|Ha].
  - eexists. left. by rewrite filter_cons_True.
  - destruct (decide (P b)) as [Hb|Hb].
    + eexists. right. by rewrite filter_cons_False, filter_cons_True.
    + exfalso.
      destruct Hin as [[? _]%list_elem_of_filter|[? _]%list_elem_of_filter];
        done.
Qed.

(** C6, as amended.  [normalize_provider] never raises and returns none,
    "aws", "azure" or "gcp".  It returns none when the result has no provider
    category or an empty keyword list.  Otherwise it reads the first keyword
    of the provider list, lowers it, and tests containment of the aliases in
    order: "aws" or "amazon" gives "aws", else "azure" or "microsoft" gives
    "azure", else "gcp" or "google" gives "gcp", else none.  Every sentence
    in which the provider keyword "aws" or "amazon web services" is detected
    normalizes to "aws".  The word "amazon" alone is not a provider keyword:
    a sentence that contains only it has no provider category and
    normalizes to none. *)
Theorem normalize_provider_aliases :
  (∀ d, ∃ r, normalize_provider d = Ok r ∧
             (r = None ∨ r = Some "aws" ∨ r = Some "azure" ∨ r = Some "gcp")) ∧
  (∀ d, categories d !! "provider" = None → normalize_provider d = Ok None) ∧
  (∀ d, categories d !! "provider" = Some [] →
        normalize_provider d = Ok None) ∧
  (∀ d first rest,
     categories d !! "provider" = Some (first :: rest) →
     let keyword := lower (chars first) in
     let aws := substring "aws" keyword ∨ substring "amazon" keyword in
     let azure := substring "azure" keyword ∨ substring "microsoft" keyword in
     let gcp := substring "gcp" keyword ∨ substring "google" keyword in
     (aws → normalize_provider d = Ok (Some "aws")) ∧
     (¬ aws → azure → normalize_provider d = Ok (Some "azure")) ∧
     (¬ aws → ¬ azure → gcp → normalize_provider d = Ok (Some "gcp")) ∧
     (¬ aws → ¬ azure → ¬ gcp → normalize_provider d = Ok None)) ∧
  (∀ sentence d l,
     detect_intents init sentence = Ok d →
     categories d !! "provider" = Some l →
     "aws" ∈ l ∨ "amazon web services" ∈ l →
     normalize_provider d = Ok (Some "aws")) ∧
  (detect_intents init "Deploy a server on AWS" ≫= normalize_provider)
    = Ok (Some "aws") ∧
  (detect_intents init "Deploy a server on Amazon Web Services"
     ≫= normalize_provider) = Ok (Some "aws") ∧
  (detect_intents init "Deploy a server on Amazon" ≫= normalize_provider)
    = Ok None.
Proof.
  split_and!.
  - intros d. destruct (categories d !! "provider") as [[|first rest]|] eqn:Hl.
    + rewrite normalize_provider_empty by done. eauto.
    + rewrite (normalize_provider_first d first rest) by done. simpl.
      repeat match goal with |- context [if ?b then _ else _] =>
        destruct b end; eauto 10.
    + rewrite normalize_provider_absent by done. eauto.
  - apply normalize_provider_absent.
  - apply normalize_provider_empty.
  - intros d first rest Hl keyword aws azure gcp.
    rewrite (normalize_provider_first d first rest Hl). fold keyword.
    unfold aws, azure, gcp. rewrite <- !contains_spec. cbv zeta.
    destruct (contains (chars "aws") keyword),
      (contains (chars "amazon") keyword),
      (contains (chars "azure") keyword),
      (contains (chars "microsoft") keyword),
      (contains (chars "gcp") keyword),
      (contains (chars "google") keyword); simpl;
      split_and!; intros; try done; exfalso; intuition congruence.
  - intros sentence d l Hd Hl Hin.
    destruct (detect_init sentence) as (d' & Hd' & _ & _ & Hcats & _).
    rewrite Hd in Hd'. injection Hd' as <-.
    assert (("provider", {|
       keywords := ["aws"; "amazon web services"; "azure"; "microsoft azure";
                    "gcp"; "google cloud"; "google cloud platform"];
       cloud_resources := [] |}) ∈ INTENT_CATEGORIES) as Hprov
      by (do 8 right; left).
    pose proof Hl as Hl'.
    rewrite (Hcats _ _ Hprov) in Hl'. apply entry_Some in Hl'.
    unfold affirmed_keywords in Hl'. simpl in Hl'. subst l.
    apply filter_first_two in Hin as [tl [Htl|Htl]]; rewrite Htl in Hl.
    + by rewrite (normalize_provider_first d "aws" tl Hl).
    + by rewrite (normalize_provider_first d "amazon web services" tl Hl).
  - by vm_compute.
  - by vm_compute.
  - by vm_compute.
Qed.

(** A sentence that contains "amazon" and does not normalize to "aws". *)
Lemma normalize_provider_counterexample :
  substring "amazon" (lower (chars "Deploy a server on Amazon")) ∧
  (detect_intents init "Deploy a server on Amazon" ≫= normalize_provider)
    = Ok None.
Proof.
  split; [|by vm_compute].
  by exists (chars "deploy a server on "), [].
Qed.

(** The alias "amazon web services", detected in a sentence. *)
Lemma normalize_provider_aliases_witness :
  ∃ d, detect_intents init "Launch a VM on Amazon Web Services" = Ok d ∧
       normalize_provider d = Ok (Some "aws").
Proof.
  eexists. split; [vm_compute; reflexivity|].
  eapply (proj1 (proj2 (proj2 (proj2 (proj2 normalize_provider_aliases))))
            "Launch a VM on Amazon Web Services").
  - vm_compute; reflexivity.
  - vm_compute; reflexivity.
  - right. left.
Defined.

Lemma extract_os_first d first rest :
  categories d !! "os" = Some (first :: rest) →
  extract_os d =
  if bool_decide (first = "amazon linux") then Ok (Some "Amazon Linux")
  else if bool_decide (first = "rhel") then Ok (Some "RHEL")
  else Ok (Some (str (capitalize (chars first)))).
Proof.
  intros Hl. unfold extract_os.
  rewrite bool_decide_eq_false_2.
  2:{ intros Hdom. apply Hdom, elem_of_dom. by rewrite Hl. }
  unfold dict_get. rewrite Hl. reflexivity.
Qed.

Lemma extract_os_absent d :
  categories d !! "os" = None → extract_os d = Ok None.
Proof.
  intros Hl. unfold extract_os.
  by rewrite bool_decide_eq_true_2 by by apply not_elem_of_dom.
Qed.

Lemma extract_os_empty d :
  categories d !! "os" = Some [] → extract_os d = Ok None.
Proof.
  intros Hl. unfold extract_os.
  rewrite bool_decide_eq_false_2.
  2:{ intros Hdom. apply Hdom, elem_of_dom. by rewrite Hl. }
  unfold dict_get. by rewrite Hl.
Qed.

(** C7, as amended.  [extract_os] returns none when the result has no os
    category (or an empty os list).  Otherwise it maps the first keyword of
    the os list: "amazon linux" gives "Amazon Linux", "rhel" gives "RHEL",
    and any other keyword is capitalized (first character in title case,
    the rest lowered), so that "ubuntu" gives "Ubuntu".  It is the first
    keyword of the list that counts, not any keyword the list contains. *)
Theorem extract_os_first_keyword :
  (∀ d, categories d !! "os" = None → extract_os d = Ok None) ∧
  (∀ d, categories d !! "os" = Some [] → extract_os d = Ok None) ∧
  (∀ d first rest,
     categories d !! "os" = Some (first :: rest) →
     (first = "amazon linux" → extract_os d = Ok (Some "Amazon Linux")) ∧
     (first = "rhel" → extract_os d = Ok (Some "RHEL")) ∧
     (first = "ubuntu" → extract_os d = Ok (Some "Ubuntu")) ∧
     (first ≠ "amazon linux" → first ≠ "rhel" →
      extract_os d = Ok (Some (str (capitalize (chars first)))))) ∧
  (∀ c rest, capitalize (c :: rest) = title_char c ++ lower rest) ∧
  str <$> (capitalize <$> (chars <$> ["ubuntu"; "windows"; "centos"; "debian";
                                      "fedora"]))
    = ["Ubuntu"; "Windows"; "Centos"; "Debian"; "Fedora"] ∧
  (detect_intents init "Launch a RHEL server" ≫= extract_os)
    = Ok (Some "RHEL") ∧
  (detect_intents init "Launch an Amazon Linux server" ≫= extract_os)
    = Ok (Some "Amazon Linux") ∧
  (detect_intents init "Launch an Ubuntu server" ≫= extract_os)
    = Ok (Some "Ubuntu").
Proof.
  split_and!.
  - apply extract_os_absent.
  - apply extract_os_empty.
  - intros d first rest Hl. rewrite (extract_os_first d first rest Hl).
    split_and!.
    + by intros ->.
    + by intros ->.
    + by intros ->.
    + intros H1 H2. by rewrite !bool_decide_eq_false_2.
  - done.
  - by vm_compute.
  - by vm_compute.
  - by vm_compute.
  - by vm_compute.
Qed.

(** An os list that starts with "rhel". *)
Lemma extract_os_first_keyword_witness :
  extract_os (Detected.mk "create" {["os" := ["rhel"; "debian"]]} ∅ "rhel, debian")
  = Ok (Some "RHEL").
Proof.
  apply (proj1 (proj2 (proj2 extract_os_first_keyword))
    (Detected.mk "create" {["os" := ["rhel"; "debian"]]} ∅ "rhel, debian")
    "rhel" ["debian"]).
  - by vm_compute.
  - reflexivity.
Defined.

(** A detection whose os list contains "rhel" and yields "Ubuntu": the list
    follows the order of the keyword table, where "ubuntu" comes first. *)
Lemma extract_os_counterexample :
  (detect_intents init "RHEL or Ubuntu"
     ≫= λ d, Ok (categories d !! "os", extract_os d))
  = Ok (Some ["ubuntu"; "rhel"], Ok (Some "Ubuntu")).
Proof. by vm_compute. Qed.

(** ** Sentences without keywords *)

Lemma is_space_not_word c : is_space c = true → is_word c = false.
Proof. by destruct c as [[] [] [] [] [] [] [] []]. Qed.

Lemma no_word_no_match k t :
  word_ends k = true →
  Forall (λ c, is_word c = false) t → ¬ occurs true k t.
Proof.
  intros [Hhead _]%andb_true_iff Hall [n Hocc].
  destruct Hocc as (pre & mid & post & -> & _ & Hmid & _).
  apply text_eq_head in Hmid as Hh. rewrite Hhead in Hh.
  destruct mid as [|c mid]; [done|]. simpl in Hh.
  apply Forall_app in Hall as [_ Hall]. apply Forall_cons in Hall as [Hc _].
  congruence.
Qed.

Lemma whitespace_no_keyword t :
  Forall (λ c, is_space c = true) t → no_keyword (lower t).
Proof.
  intros Hall c data k Hin Hk.
  apply no_word_no_match; [by apply (keyword_word_ends c data)|].
  unfold lower. apply Forall_fmap. eapply Forall_impl; [done|].
  intros a Ha. simpl. rewrite is_word_lower. by apply is_space_not_word.
Qed.

Lemma extract_os_total d : ∃ r, extract_os d = Ok r.
Proof.
  destruct (categories d !! "os") as [[|first rest]|] eqn:Hl.
  - rewrite extract_os_empty by done. eauto.
  - rewrite (extract_os_first d first rest) by done.
    repeat case_bool_decide; eauto.
  - rewrite extract_os_absent by done. eauto.
Qed.

Lemma normalize_provider_total d : ∃ r, normalize_provider d = Ok r.
Proof.
  destruct (categories d !! "provider") as [[|first rest]|] eqn:Hl.
  - rewrite normalize_provider_empty by done. eauto.
  - rewrite (normalize_provider_first d first rest) by done. simpl.
    repeat match goal with |- context [if ?b then _ else _] =>
      destruct b end; eauto.
  - rewrite normalize_provider_absent by done. eauto.
Qed.

Lemma validate_intent_empty d :
  categories d = ∅ → validate_intent d = false.
Proof.
  intros Hd. unfold validate_intent. rewrite Hd.
  by repeat case_bool_decide.
Qed.

(** C8.  [detect_intents] returns a result for every sentence and raises
    nothing, and so do [normalize_provider] and [extract_os] on that
    result.  For a sentence in which no keyword of the table stands as a
    whole word, among them the empty sentence and every sentence made of
    whitespace only, the result has empty [categories] and empty
    [negated_categories], [validate_intent] is false on it, and the provider
    and the operating system are none.  Whenever [categories] is empty,
    [validate_intent] is false and both normalizers return none. *)
Theorem detection_total :
  (∀ sentence, ∃ d, detect_intents init sentence = Ok d ∧
     (∃ r, normalize_provider d = Ok r) ∧ (∃ r, extract_os d = Ok r)) ∧
  (∀ sentence,
     no_keyword (lower (chars sentence)) →
     ∃ d, detect_intents init sentence = Ok d ∧
          categories d = ∅ ∧ negated_categories d = ∅ ∧
          validate_intent d = false ∧
          normalize_provider d = Ok None ∧ extract_os d = Ok None) ∧
  (∀ sentence,
     Forall (λ c, is_space c = true) (chars sentence) →
     no_keyword (lower (chars sentence))) ∧
  (∀ d, categories d = ∅ →
        validate_intent d = false ∧
        normalize_provider d = Ok None ∧ extract_os d = Ok None) ∧
  (detect_intents init "" ≫= λ d, Ok (categories d, negated_categories d))
    = Ok (∅, ∅).
Proof.
  assert (∀ d, categories d = ∅ →
            validate_intent d = false ∧
            normalize_provider d = Ok None ∧ extract_os d = Ok None) as Hempty.
  { intros d Hd. split_and!.
    - by apply validate_intent_empty.
    - apply normalize_provider_absent. by rewrite Hd.
    - apply extract_os_absent. by rewrite Hd. }
  split_and!.
  - intros sentence.
    destruct (detect_init sentence) as (d & Hd & _).
    exists d. split_and!; [done|..].
    + apply normalize_provider_total.
    + apply extract_os_total.
  - intros sentence Hnone.
    destruct (detect_init sentence) as (d & Hd & _ & _ & Hcats & Hother & Hnegs).
    assert (categories d = ∅) as Hc.
    { apply map_empty. intros c.
      destruct (decide (c ∈ INTENT_CATEGORIES.*1)) as [Hc|Hc];
        [|by apply Hother].
      apply list_elem_of_fmap in Hc as ([c' data] & -> & Hin).
      simpl. rewrite (Hcats c' data Hin).
      unfold affirmed_keywords. rewrite filter_none; [done|].
      intros k Hk.
      destruct (silent_keyword (lower (chars sentence)) k) as [-> _];
        [|done].
      by apply (Hnone c' data). }
    exists d. split_and!; [done|done| |by apply Hempty..].
    apply elem_of_equiv_empty_L. intros c Hin.
    apply Hnegs in Hin as (data & k & Hin & Hk & Hden).
    destruct (silent_keyword (lower (chars sentence)) k) as [_ Hsil];
      [|congruence].
    by apply (Hnone c data).
  - intros sentence. apply whitespace_no_keyword.
  - done.
  - by vm_compute.
Qed.

(** A sentence of three spaces. *)
Lemma detection_total_witness :
  ∃ d, detect_intents init "   " = Ok d ∧
       categories d = ∅ ∧ negated_categories d = ∅ ∧
       validate_intent d = false ∧
       normalize_provider d = Ok None ∧ extract_os d = Ok None.
Proof.
  apply (proj1 (proj2 detection_total) "   ").
  apply (proj1 (proj2 (proj2 detection_total)) "   ").
  repeat constructor.
Defined.

(** ** The order of the keyword lists *)

(** C9.  In the result of a detection, the keyword list of every category
    present is the list of that category's declared keywords with the ones
    the sentence does not affirm left out: it follows the order of the
    keyword table, not the order of the text.  In "MySQL database" the word
    "mysql" comes first, yet the list is "database", "mysql". *)
Theorem keyword_order :
  (∀ sentence d c l,
     detect_intents init sentence = Ok d →
     categories d !! c = Some l →
     ∃ data, (c, data) ∈ INTENT_CATEGORIES ∧
             l = filter (λ k, affirmedb (lower (chars sentence)) k = true)
                   (keywords data) ∧
             l `sublist_of` keywords data) ∧
  (word_positions true ["mysql"] (lower (chars "MySQL database")) = [0] ∧
   word_positions true ["database"] (lower (chars "MySQL database")) = [6] ∧
   ∃ d, detect_intents init "MySQL database" = Ok d ∧
        categories d = {["database" := ["database"; "mysql"]]}).
Proof.
  split.
  - intros sentence d c l Hd Hl.
    destruct (detect_init sentence) as (d' & Hd' & _ & _ & Hcats & Hother & _).
    rewrite Hd in Hd'. injection Hd' as <-.
    destruct (decide (c ∈ INTENT_CATEGORIES.*1)) as [Hc|Hc].
    + apply list_elem_of_fmap in Hc as ([c' data] & -> & Hin). simpl in *.
      rewrite (Hcats c' data Hin) in Hl. apply entry_Some in Hl.
      exists data. split_and!; [done|done|].
      subst l. apply sublist_filter.
    + rewrite (Hother c Hc) in Hl. done.
  - split_and!; [by vm_compute..|].
    eexists. split; [vm_compute; reflexivity|]. vm_compute; reflexivity.
Qed.

(** The database list of "MySQL database". *)
Lemma keyword_order_witness :
  ∃ data, ("database", data) ∈ INTENT_CATEGORIES ∧
    ["database"; "mysql"]
    = filter (λ k, affirmedb (lower (chars "MySQL database")) k = true)
        (keywords data) ∧
    ["database"; "mysql"] `sublist_of` keywords data.
Proof.
  eapply (proj1 keyword_order "MySQL database" _ "database").
  - vm_compute; reflexivity.
  - vm_compute; reflexivity.
Defined.

(** ** Every occurrence is examined *)

Section spacing.
Context (ic : bool).

Lemma alt_match_single w prev t l :
  alt_match ic [w] prev t = Some l → l = length (chars w).
Proof.
  simpl. destruct (lit_match ic (chars w) prev t) as [[prev' post]|]; [|done].
  destruct (boundary prev' post); [|done]. by intros [= <-].
Qed.

Lemma match_here_single w prev t l :
  match_here ic [w] prev t = Some l → l = length (chars w).
Proof.
  unfold match_here. destruct (boundary prev t); [|done].
  apply alt_match_single.
Qed.

(** When the positions are at least [len] apart and start after the
    characters to pass, the scan finds them all. *)
Lemma finditer_positions w skip pos prev t :
  w ≠ "" →
  (∀ n, n ∈ positions_from ic [w] pos prev t → pos + skip ≤ n) →
  (∀ n m, n ∈ positions_from ic [w] pos prev t →
          m ∈ positions_from ic [w] pos prev t →
          n < m → n + length (chars w) ≤ m) →
  finditer_from ic [w] skip pos prev t = positions_from ic [w] pos prev t.
Proof.
  intros Hne. revert skip pos prev.
  induction t as [|c t IH]; intros skip pos prev Hskip Hapart.
  - simpl. rewrite match_here_nil; [by destruct skip|].
    intros Heq%list_elem_of_singleton. by subst.
  - simpl in *. destruct skip as [|k].
    + destruct (match_here ic [w] prev (c :: t)) as [l|] eqn:Hm; simpl in *.
      * apply match_here_single in Hm as ->. f_equal. apply IH.
        -- intros n Hn. pose proof (positions_from_ge _ _ _ _ _ _ Hn).
           specialize (Hapart pos n). 
           assert (pos + length (chars w) ≤ n); [|lia].
           apply Hapart; [left|by right|lia].
        -- intros n m Hn Hm. apply Hapart; by right.
      * apply IH.
        -- intros n Hn. pose proof (positions_from_ge _ _ _ _ _ _ Hn). lia.
        -- done.
    + destruct (match_here ic [w] prev (c :: t)) as [l|] eqn:Hm; simpl in *.
      * assert (pos + S k ≤ pos); [|lia]. apply Hskip. left.
      * apply IH; [|done]. intros n Hn. specialize (Hskip n Hn). lia.
Qed.

(** Two whole-word occurrences of a word that passes [no_overlap] do not
    overlap. *)
Lemma occurs_at_apart w t n m :
  no_overlap ic w = true →
  occurs_at ic w t n → occurs_at ic w t m → n < m →
  n + length (chars w) ≤ m.
Proof.
  intros Hno (pre1 & mid1 & post1 & Ht1 & Hn & Hmid1 & _ & _)
    (pre2 & mid2 & post2 & Ht2 & Hm & Hmid2 & Hb & _) Hlt.
  destruct (decide (n + length (chars w) ≤ m)) as [|Hover]; [done|].
  exfalso. set (i := m - n).
  assert (length mid1 = length (chars w)) as Hl1
    by apply (Forall2_length _ _ _ Hmid1).
  assert (length mid2 = length (chars w)) as Hl2
    by apply (Forall2_length _ _ _ Hmid2).
  assert (∀ j, j < length (chars w) → t !! (n + j) = mid1 !! j) as Hat1.
  { intros j Hj. rewrite Ht1, lookup_app_r by lia.
    rewrite lookup_app_l by lia. f_equal. lia. }
  assert (t !! m = mid2 !! 0) as Hat2.
  { rewrite Ht2, lookup_app_r by lia. rewrite lookup_app_l by lia.
    f_equal. lia. }
  (* the characters on either side of the second start *)
  destruct (lookup_lt_is_Some_2 mid1 (i - 1)) as [a Ha]; [lia|].
  destruct (lookup_lt_is_Some_2 mid1 i) as [b Hb']; [lia|].
  destruct (Forall2_lookup_l _ _ _ _ _ Hmid1 Ha) as (pa & Hpa & Hca).
  destruct (Forall2_lookup_l _ _ _ _ _ Hmid1 Hb') as (pb & Hpb & Hcb).
  assert (t !! m = Some b) as Htm.
  { replace m with (n + i) by lia. by rewrite Hat1 by lia. }
  assert (last pre2 = Some a) as Hlast.
  { rewrite last_lookup.
    assert (pre2 !! pred (length pre2) = t !! (m - 1)) as ->.
    { rewrite Ht2, lookup_app_l by lia. f_equal. lia. }
    replace (m - 1) with (n + (i - 1)) by lia. by rewrite Hat1 by lia. }
  assert (head (mid2 ++ post2) = Some b) as Hhead.
  { rewrite head_lookup, lookup_app_l by lia. by rewrite <- Hat2. }
  rewrite Htm in Hat2. symmetry in Hat2.
  destruct (Forall2_lookup_l _ _ _ _ _ Hmid2 Hat2) as (p0 & Hp0 & Hc0).
  unfold boundary in Hb. rewrite Hlast, Hhead in Hb. simpl in Hb.
  rewrite (char_eq_word ic a pa Hca), (char_eq_word ic b pb Hcb) in Hb.
  unfold no_overlap in Hno. rewrite forallb_forall in Hno.
  specialize (Hno i). rewrite <- list_elem_of_In, elem_of_seq in Hno.
  assert (char_eq ic pb p0 = true) as Hpp.
  { unfold char_eq in *. destruct ic.
    - apply bool_decide_eq_true in Hcb, Hc0. apply bool_decide_eq_true.
      congruence.
    - apply bool_decide_eq_true in Hcb, Hc0. apply bool_decide_eq_true.
      congruence. }
  rewrite Hpa, Hpb, head_lookup, Hp0 in Hno. simpl in Hno.
  rewrite Hb, Hpp in Hno. simpl in Hno.
  assert (false = true); [|done]. apply Hno. lia.
Qed.

Lemma finditer_all w t :
  w ≠ "" → no_overlap ic w = true →
  re_finditer ic [w] t = word_positions ic [w] t.
Proof.
  intros Hne Hno. apply finditer_positions; [done|..].
  - intros n _. lia.
  - intros n m Hn Hm.
    apply word_positions_spec in Hn as (? & ->%list_elem_of_singleton & Hn).
    apply word_positions_spec in Hm as (? & ->%list_elem_of_singleton & Hm).
    by apply (occurs_at_apart w t).
Qed.
End spacing.

Lemma INTENT_CATEGORIES_no_overlap :
  Forall (λ item, Forall (λ k, no_overlap true k = true) (keywords item.2))
    INTENT_CATEGORIES.
Proof. apply (bool_decide_unpack _). by vm_compute. Qed.

Lemma keyword_finditer c data k t :
  (c, data) ∈ INTENT_CATEGORIES → k ∈ keywords data →
  re_finditer true [k] t = word_positions true [k] t.
Proof.
  intros Hin Hk. apply finditer_all.
  - intros ->. by pose proof (keyword_word_ends c data "" Hin Hk).
  - pose proof INTENT_CATEGORIES_no_overlap as Hall.
    rewrite Forall_forall in Hall. specialize (Hall _ Hin). simpl in Hall.
    rewrite Forall_forall in Hall. by apply Hall.
Qed.

Lemma affirmedb_spec c data k sl :
  (c, data) ∈ INTENT_CATEGORIES → k ∈ keywords data →
  affirmedb sl k = true ↔ affirmed sl k.
Proof.
  intros Hin Hk. unfold affirmedb, affirmed.
  rewrite (keyword_finditer c data k sl Hin Hk), existsb_exists. split.
  - intros (n & Hn & Hneg). exists n. split.
    + apply list_elem_of_In, word_positions_spec in Hn
        as (? & ->%list_elem_of_singleton & ?). done.
    + by apply negb_true_iff.
  - intros (n & Hn & Hneg). exists n. split.
    + apply list_elem_of_In, word_positions_spec. exists k. split; [left|done].
    + by apply negb_true_iff.
Qed.

Lemma deniedb_spec c data k sl :
  (c, data) ∈ INTENT_CATEGORIES → k ∈ keywords data →
  deniedb sl k = true ↔ denied sl k.
Proof.
  intros Hin Hk. unfold deniedb, denied.
  rewrite (keyword_finditer c data k sl Hin Hk), existsb_exists. split.
  - intros (n & Hn & Hneg). exists n. split; [|done].
    apply list_elem_of_In, word_positions_spec in Hn
      as (? & ->%list_elem_of_singleton & ?). done.
  - intros (n & Hn & Hneg). exists n. split; [|done].
    apply list_elem_of_In, word_positions_spec. exists k. split; [left|done].
Qed.

Lemma entry_elem_of l k :
  (∃ l', entry l = Some l' ∧ k ∈ l') ↔ k ∈ l.
Proof.
  split.
  - by intros (l' & <-%entry_Some & ?).
  - intros Hk. exists l. split; [|done]. destruct l; [|done].
    by apply elem_of_nil in Hk.
Qed.

(** The result of a detection, in terms of the sentence. *)
Lemma detect_meaning sentence :
  ∃ d, detect_intents init sentence = Ok d ∧
    (∀ c k, (∃ l, categories d !! c = Some l ∧ k ∈ l) ↔
            keyword_of c k ∧ affirmed (lower (chars sentence)) k) ∧
    (∀ c, c ∈ negated_categories d ↔
          ∃ k, keyword_of c k ∧ denied (lower (chars sentence)) k).
Proof.
  destruct (detect_init sentence) as (d & Hd & _ & _ & Hcats & Hother & Hnegs).
  exists d. split_and!; [done|..].
  - intros c k. destruct (decide (c ∈ INTENT_CATEGORIES.*1)) as [Hc|Hc].
    + apply list_elem_of_fmap in Hc as ([c' data] & -> & Hin). simpl.
      rewrite (Hcats c' data Hin), entry_elem_of.
      unfold affirmed_keywords. rewrite list_elem_of_filter. split.
      * intros [Haff Hk]. split; [by exists data|].
        by apply (affirmedb_spec c' data).
      * intros [(data' & Hin' & Hk) Haff].
        rewrite (table_data_unique c' data data' Hin Hin').
        split; [|done]. by apply (affirmedb_spec c' data').
    + rewrite (Hother c Hc). split.
      * by intros (l & ? & _).
      * intros [(data & Hin & _) _]. destruct Hc.
        apply list_elem_of_fmap. by exists (c, data).
  - intros c. rewrite Hnegs. split.
    + intros (data & k & Hin & Hk & Hden). exists k. split; [by exists data|].
      by apply (deniedb_spec c data).
    + intros (k & (data & Hin & Hk) & Hden). exists data, k.
      split_and!; [done..|]. by apply (deniedb_spec c data).
Qed.

(** X1. The keyword search of [detect_intents] misses no occurrence: for
    every keyword of [INTENT_CATEGORIES], [re.finditer] on its pattern
    yields exactly the offsets at which the keyword stands as a whole
    word, compared without case.  Hence the result of a detection, for
    every sentence: a keyword is in the list of a category exactly when
    the table lists it for that category and some whole-word occurrence
    of it has no negation cue in its window; a category is negated exactly
    when some occurrence of one of its keywords has a cue in its window. *)
Theorem detection_examines_every_occurrence :
  (∀ c k t, keyword_of c k →
            ∀ n, n ∈ re_finditer true [k] t ↔ occurs_at true k t n) ∧
  (∀ sentence, ∃ d, detect_intents init sentence = Ok d ∧
     (∀ c k, (∃ l, categories d !! c = Some l ∧ k ∈ l) ↔
             keyword_of c k ∧ affirmed (lower (chars sentence)) k) ∧
     (∀ c, c ∈ negated_categories d ↔
           ∃ k, keyword_of c k ∧ denied (lower (chars sentence)) k)).
Proof.
  split.
  - intros c k t (data & Hin & Hk) n.
    rewrite (keyword_finditer c data k t Hin Hk), word_positions_spec. split.
    + by intros (? & ->%list_elem_of_singleton & ?).
    + intros ?. exists k. split; [left|done].
  - apply detect_meaning.
Qed.

(** ** Validity of a detection *)

Lemma validate_intent_true d :
  validate_intent d = true ↔
  categories d ≠ ∅ ∧
  ∀ c, c ∈ dom (categories d) → c ∉ negated_categories d.
Proof.
  unfold validate_intent. case_bool_decide as Hinter.
  - split; [done|]. intros [_ Hdisj].
    apply set_choose_L in Hinter as [c [Hc1 Hc2]%elem_of_intersection].
    by destruct (Hdisj c).
  - case_bool_decide as Hempty.
    + split; [done|]. by intros [? _].
    + split; [|done]. intros _. split; [done|]. intros c Hc Hneg.
      assert (c ∈ negated_categories d ∩ dom (categories d)) as Hin
        by (by apply elem_of_intersection).
      rewrite Hinter in Hin. by apply elem_of_empty in Hin.
Qed.

(** X2. [validate_intent] on the result of [detect_intents]: the intent
    of a sentence is valid exactly when some keyword of the table is
    affirmed in it and no category has both an affirmed keyword and a
    denied keyword (the two may be the same keyword, at two places). *)
Theorem detection_valid_iff sentence :
  ∃ d, detect_intents init sentence = Ok d ∧
    (validate_intent d = true ↔
     (∃ c k, keyword_of c k ∧ affirmed (lower (chars sentence)) k) ∧
     ∀ c k k', keyword_of c k → keyword_of c k' →
               affirmed (lower (chars sentence)) k →
               ¬ denied (lower (chars sentence)) k').
Proof.
  destruct (detect_meaning sentence) as (d & Hd & Hcats & Hnegs).
  exists d. split; [done|]. rewrite validate_intent_true.
  assert (∀ c, c ∈ dom (categories d) ↔
               ∃ k, keyword_of c k ∧ affirmed (lower (chars sentence)) k)
    as Hdom.
  { intros c. rewrite elem_of_dom. split.
    - intros [l Hl]. destruct l as [|k l].
      + destruct (detect_init sentence) as (d' & Hd' & _ & _ & Hc' & Ho & _).
        rewrite Hd in Hd'. injection Hd' as <-.
        destruct (decide (c ∈ INTENT_CATEGORIES.*1)) as [Hc|Hc].
        * apply list_elem_of_fmap in Hc as ([c' data] & -> & Hin).
          simpl in *. rewrite (Hc' c' data Hin) in Hl.
          by destruct (affirmed_keywords _ data).
        * by rewrite (Ho c Hc) in Hl.
      + exists k. apply Hcats. exists (k :: l). split; [done|left].
    - intros (k & Hk). apply Hcats in Hk as (l & Hl & _). by exists l. }
  split.
  - intros [Hne Hdisj]. split.
    + apply map_choose in Hne as (c & l & Hl).
      assert (c ∈ dom (categories d)) as (k & ?)%Hdom
        by (apply elem_of_dom; by exists l).
      by exists c, k.
    + intros c k k' Hk Hk' Haff Hden.
      apply (Hdisj c).
      * apply Hdom. by exists k.
      * apply Hnegs. by exists k'.
  - intros [(c & k & Hk) Hdisj]. split.
    + intros Hempty.
      assert (c ∈ dom (categories d)) as Hc by (apply Hdom; by exists k).
      rewrite Hempty, dom_empty_L in Hc. by apply elem_of_empty in Hc.
    + intros c' (k1 & Hk1 & Haff)%Hdom (k2 & Hk2 & Hden)%Hnegs.
      by apply (Hdisj c' k1 k2).
Qed.

(** ** The shape of a result *)

Lemma foldl_invariant {A B} (P : A → Prop) (f : A → B → A) (xs : list B) :
  (∀ a x, x ∈ xs → P a → P (f a x)) → ∀ a, P a → P (foldl f a xs).
Proof.
  induction xs as [|x xs IH]; intros Hstep a Ha; simpl; [done|].
  apply IH.
  - intros a' x' Hx'. apply Hstep. by right.
  - apply Hstep; [left|done].
Qed.

Lemma scan_match_well_formed tbl sl c data k d p :
  (c, data) ∈ tbl → k ∈ keywords data →
  well_formed tbl d → well_formed tbl (scan_match sl c k d p).
Proof.
  intros Hin Hk [Hcats Hnegs]. unfold scan_match.
  destruct (has_negation sl (Z.of_nat p)); split; simpl; try done.
  - intros c' [->%elem_of_singleton|?]%elem_of_union; [|by apply Hnegs].
    apply list_elem_of_fmap. by exists (c, data).
  - intros c' l. unfold add_keyword.
    destruct (decide (c' = c)) as [->|Hne].
    + rewrite lookup_insert_eq. intros [= <-].
      destruct (categories d !! c) as [found|] eqn:Hfound; simpl.
      * destruct (Hcats c found Hfound) as (Hne & Hnd & Hall).
        case_bool_decide as Hmem; [done|]. split_and!.
        -- by destruct found.
        -- apply NoDup_app. split_and!; [done| |apply NoDup_singleton].
           intros k' Hk' ->%list_elem_of_singleton. done.
        -- intros k' [? | ->%list_elem_of_singleton]%elem_of_app;
             [by apply Hall|by exists data].
      * split_and!; [done|apply NoDup_singleton|].
        intros k' ->%list_elem_of_singleton. by exists data.
    + rewrite lookup_insert_ne by done. apply Hcats.
Qed.

(** X3. For a parser whose tables pass [plain_tables] (distinct category
    names, distinct action names, no verb with a metacharacter of [re],
    so that [extract_action] reads each verb as the word it spells) and
    for any sentence, [detect_intents] raises nothing, and its result is
    well formed: every category present holds a list that is not empty,
    repeats no keyword and holds only keywords the table lists for that
    category; every negated category is a category of the table; the
    action is that of [extract_action] and the raw sentence is the
    sentence given. *)
Theorem detection_well_formed (s : self) (sentence : string) :
  plain_tables s = true →
  ∃ d, detect_intents s sentence = Ok d ∧
       well_formed (self_categories s) d ∧
       action d = extract_action s sentence ∧ raw_sentence d = sentence.
Proof.
  intros _.
  eexists. split; [apply detect_intents_scan|].
  destruct (scan_table_fixed (lower (chars sentence)) (self_categories s)
    (Detected.mk (extract_action s sentence) ∅ ∅ sentence)) as [-> ->].
  split; [|done].
  apply (foldl_invariant (well_formed (self_categories s))).
  - intros d [c data] Hin Hd. unfold scan_category. simpl.
    apply (foldl_invariant (well_formed (self_categories s))); [|done].
    intros d' k Hk Hd'. unfold scan_keyword.
    apply (foldl_invariant (well_formed (self_categories s))); [|done].
    intros d'' p _ Hd''. by apply (scan_match_well_formed _ _ c data).
  - split; simpl.
    + intros c l. by rewrite lookup_empty.
    + by intros c ?%elem_of_empty.
Qed.

(** The parser of the module, on a sentence with an affirmed and a denied
    keyword. *)
Lemma detection_well_formed_witness :
  ∃ d, detect_intents init "Deploy a server without a database" = Ok d ∧
       well_formed (self_categories init) d ∧
       action d = extract_action init "Deploy a server without a database" ∧
       raw_sentence d = "Deploy a server without a database".
Proof.
  apply (detection_well_formed init "Deploy a server without a database").
  vm_compute. reflexivity.
Defined.

(** ** A keyword of two categories *)

Lemma shared_keywords_spec c1 c2 k :
  keyword_of c1 k → keyword_of c2 k → c1 ≠ c2 → (c1, c2, k) ∈ shared_keywords.
Proof.
  intros (d1 & Hin1 & Hk1) (d2 & Hin2 & Hk2) Hne. unfold shared_keywords.
  apply list_elem_of_bind. exists (c1, d1). split; [|done].
  apply list_elem_of_bind. exists (c2, d2). split; [|done].
  apply list_elem_of_bind. exists k. split; [|done].
  rewrite bool_decide_eq_true_2 by done. left.
Qed.

(** X4. The word container is the only keyword that [INTENT_CATEGORIES]
    lists for two categories, compute and container.  So [detect_intents]
    reports it for both or for neither, and a denied occurrence of it
    negates both categories. *)
Theorem container_in_two_categories :
  (∀ c1 c2 k, keyword_of c1 k → keyword_of c2 k → c1 ≠ c2 →
     k = "container" ∧
     (c1 = "compute" ∧ c2 = "container" ∨ c1 = "container" ∧ c2 = "compute")) ∧
  (∀ sentence, ∃ d, detect_intents init sentence = Ok d ∧
     ((∃ l, categories d !! "compute" = Some l ∧ "container" ∈ l) ↔
      (∃ l, categories d !! "container" = Some l ∧ "container" ∈ l)) ∧
     (denied (lower (chars sentence)) "container" →
      "compute" ∈ negated_categories d ∧
      "container" ∈ negated_categories d)).
Proof.
  assert (keyword_of "compute" "container") as Hk1.
  { eexists. split; [do 1 right; left|]. do 6 right. left. }
  assert (keyword_of "container" "container") as Hk2.
  { eexists. split; [do 6 right; left|]. left. }
  split.
  - intros c1 c2 k H1 H2 Hne.
    pose proof (shared_keywords_spec c1 c2 k H1 H2 Hne) as Hin.
    assert (shared_keywords = [("compute", "container", "container");
                               ("container", "compute", "container")]) as Heq
      by (by vm_compute).
    rewrite Heq in Hin.
    apply elem_of_cons in Hin as [[= -> -> ->]|Hin]; [by auto|].
    apply list_elem_of_singleton in Hin as [= -> -> ->]. by auto.
  - intros sentence.
    destruct (detect_meaning sentence) as (d & Hd & Hcats & Hnegs).
    exists d. split_and!; [done|..].
    + rewrite !Hcats. split; intros [_ ?]; by split.
    + intros Hden. split; apply Hnegs; by exists "container".
Qed.

(** ** Keywords that begin with another keyword *)

Lemma ci_head ic (l1 l2 : text) :
  Forall2 (λ c p, char_eq ic c p = true) l1 l2 →
  word_opt (head l1) = word_opt (head l2).
Proof.
  destruct 1 as [|c p ? ? Hc _]; simpl; [done|]. by apply char_eq_word in Hc.
Qed.

Lemma ci_last ic (l1 l2 : text) :
  Forall2 (λ c p, char_eq ic c p = true) l1 l2 →
  word_opt (last l1) = word_opt (last l2).
Proof.
  intros Heq%Forall2_last.
  destruct Heq as [c p Hc|]; simpl; [|done]. by apply char_eq_word in Hc.
Qed.

Lemma occurs_at_prefix ic w1 w2 r t n :
  chars w1 = chars w2 ++ r →
  word_opt (last (chars w2)) = true → word_opt (head r) = false →
  occurs_at ic w1 t n → occurs_at ic w2 t n.
Proof.
  intros Heq Hlast Hhead (pre & mid & post & -> & Hlen & Hmid & Hb1 & Hb2).
  unfold text_eq in Hmid. rewrite Heq in Hmid.
  apply Forall2_app_inv_r in Hmid as (mid1 & mid2 & H1 & H2 & ->).
  exists pre, mid1, (mid2 ++ post).
  rewrite <- !(assoc_L (++)) in *. split_and!; [done..|].
  unfold boundary. rewrite last_app.
  rewrite <- (ci_last ic mid1 _ H1) in Hlast.
  destruct (last mid1) as [a|] eqn:Hl; [|done]. simpl in *. rewrite Hlast.
  rewrite <- (ci_head ic mid2 _ H2) in Hhead.
  destruct mid2 as [|b mid2]; simpl in *.
  - unfold boundary in Hb2. rewrite app_nil_r, last_app, Hl in Hb2.
    simpl in Hb2. by rewrite Hlast in Hb2.
  - by rewrite Hhead.
Qed.

Lemma affirmed_prefix w1 w2 r sl :
  chars w1 = chars w2 ++ r →
  word_opt (last (chars w2)) = true → word_opt (head r) = false →
  (affirmed sl w1 → affirmed sl w2) ∧ (denied sl w1 → denied sl w2).
Proof.
  intros Heq Hlast Hhead.
  split; intros (n & Hn & Hneg); exists n; (split; [|done]);
    by apply (occurs_at_prefix true w1 w2 r).
Qed.

(** ** The provider and the operating system of a detection *)

Lemma provider_entry :
  ("provider", {|
     keywords := ["aws"; "amazon web services"; "azure"; "microsoft azure";
                  "gcp"; "google cloud"; "google cloud platform"];
     cloud_resources := [] |}) ∈ INTENT_CATEGORIES.
Proof. do 8 right. left. Qed.

Lemma os_entry :
  ("os", {|
     keywords := ["ubuntu"; "windows"; "amazon linux"; "centos"; "rhel";
                  "debian"; "fedora"];
     cloud_resources := [] |}) ∈ INTENT_CATEGORIES.
Proof. do 9 right. left. Qed.

Lemma affirmed_provider sl k :
  k ∈ ["aws"; "amazon web services"; "azure"; "microsoft azure";
       "gcp"; "google cloud"; "google cloud platform"] →
  affirmed sl k ↔ affirmedb sl k = true.
Proof. intros Hk. symmetry. by apply (affirmedb_spec _ _ _ _ provider_entry). Qed.

Lemma affirmed_os sl k :
  k ∈ ["ubuntu"; "windows"; "amazon linux"; "centos"; "rhel";
       "debian"; "fedora"] →
  affirmed sl k ↔ affirmedb sl k = true.
Proof. intros Hk. symmetry. by apply (affirmedb_spec _ _ _ _ os_entry). Qed.

Ltac member := repeat first [by left | right].

(** Take the next keyword of the filtered list in [Hl]: either it is
    affirmed and heads the list, or it is left out. *)
Ltac next_keyword Hl E :=
  rewrite filter_cons in Hl;
  match type of Hl with
  | context [decide (?b = true)] => destruct (decide (b = true)) as [E|E]
  end.

(** X6. [normalize_provider] on the result of [detect_intents] ranks the
    providers, wherever their keywords stand in the sentence: aws when one
    of its two keywords is affirmed; otherwise azure when one of its
    keywords is affirmed; otherwise gcp when one of its keywords is
    affirmed; otherwise None, and the result has no provider category. *)
Theorem provider_priority sentence :
  let A := affirmed (lower (chars sentence)) in
  ∃ d, detect_intents init sentence = Ok d ∧
    (A "aws" ∨ A "amazon web services" →
     normalize_provider d = Ok (Some "aws")) ∧
    (¬ (A "aws" ∨ A "amazon web services") →
     A "azure" ∨ A "microsoft azure" →
     normalize_provider d = Ok (Some "azure")) ∧
    (¬ (A "aws" ∨ A "amazon web services") →
     ¬ (A "azure" ∨ A "microsoft azure") →
     A "gcp" ∨ A "google cloud" ∨ A "google cloud platform" →
     normalize_provider d = Ok (Some "gcp")) ∧
    (¬ (A "aws" ∨ A "amazon web services") →
     ¬ (A "azure" ∨ A "microsoft azure") →
     ¬ (A "gcp" ∨ A "google cloud" ∨ A "google cloud platform") →
     normalize_provider d = Ok None ∧ categories d !! "provider" = None).
Proof.
  intros A. unfold A. set (sl := lower (chars sentence)).
  destruct (detect_init sentence) as (d & Hd & _ & _ & Hcats & _).
  exists d. split; [done|].
  pose proof (Hcats _ _ provider_entry) as Hl. fold sl in Hl.
  unfold affirmed_keywords in Hl. simpl in Hl.
  rewrite !affirmed_provider by member.
  next_keyword Hl E1.
  { rewrite (normalize_provider_first d _ _ Hl). simpl.
    split_and!; intros; try done; exfalso; intuition congruence. }
  next_keyword Hl E2.
  { rewrite (normalize_provider_first d _ _ Hl). simpl.
    split_and!; intros; try done; exfalso; intuition congruence. }
  next_keyword Hl E3.
  { rewrite (normalize_provider_first d _ _ Hl). simpl.
    split_and!; intros; try done; exfalso; intuition congruence. }
  next_keyword Hl E4.
  { rewrite (normalize_provider_first d _ _ Hl). simpl.
    split_and!; intros; try done; exfalso; intuition congruence. }
  next_keyword Hl E5.
  { rewrite (normalize_provider_first d _ _ Hl). simpl.
    split_and!; intros; try done; exfalso; intuition congruence. }
  next_keyword Hl E6.
  { rewrite (normalize_provider_first d _ _ Hl). simpl.
    split_and!; intros; try done; exfalso; intuition congruence. }
  next_keyword Hl E7.
  { rewrite (normalize_provider_first d _ _ Hl). simpl.
    split_and!; intros; try done; exfalso; intuition congruence. }
  rewrite filter_nil in Hl. simpl in Hl.
  rewrite (normalize_provider_absent d Hl).
  split_and!; intros; try done; exfalso; intuition congruence.
Qed.

(** X7. [extract_os] on the result of [detect_intents] follows the order
    of the os keywords in the table, not their order in the sentence: the
    first of ubuntu, windows, amazon linux, centos, rhel, debian, fedora
    that is affirmed decides, and the answer is that keyword capitalized
    ([str.capitalize]), or the fixed spelling [Amazon Linux] or [RHEL];
    with none affirmed the answer is None and there is no os category. *)
Theorem os_priority sentence :
  let A := affirmed (lower (chars sentence)) in
  ∃ d, detect_intents init sentence = Ok d ∧
    (A "ubuntu" → extract_os d = Ok (Some "Ubuntu")) ∧
    (¬ A "ubuntu" → A "windows" → extract_os d = Ok (Some "Windows")) ∧
    (¬ A "ubuntu" → ¬ A "windows" → A "amazon linux" →
     extract_os d = Ok (Some "Amazon Linux")) ∧
    (¬ A "ubuntu" → ¬ A "windows" → ¬ A "amazon linux" → A "centos" →
     extract_os d = Ok (Some "Centos")) ∧
    (¬ A "ubuntu" → ¬ A "windows" → ¬ A "amazon linux" → ¬ A "centos" →
     A "rhel" → extract_os d = Ok (Some "RHEL")) ∧
    (¬ A "ubuntu" → ¬ A "windows" → ¬ A "amazon linux" → ¬ A "centos" →
     ¬ A "rhel" → A "debian" → extract_os d = Ok (Some "Debian")) ∧
    (¬ A "ubuntu" → ¬ A "windows" → ¬ A "amazon linux" → ¬ A "centos" →
     ¬ A "rhel" → ¬ A "debian" → A "fedora" →
     extract_os d = Ok (Some "Fedora")) ∧
    (¬ A "ubuntu" → ¬ A "windows" → ¬ A "amazon linux" → ¬ A "centos" →
     ¬ A "rhel" → ¬ A "debian" → ¬ A "fedora" →
     extract_os d = Ok None ∧ categories d !! "os" = None).
Proof.
  intros A. unfold A. set (sl := lower (chars sentence)).
  destruct (detect_init sentence) as (d & Hd & _ & _ & Hcats & _).
  exists d. split; [done|].
  pose proof (Hcats _ _ os_entry) as Hl. fold sl in Hl.
  unfold affirmed_keywords in Hl. simpl in Hl.
  rewrite !affirmed_os by member.
  next_keyword Hl E1.
  { rewrite (extract_os_first d _ _ Hl). simpl.
    split_and!; intros; try done; exfalso; intuition congruence. }
  next_keyword Hl E2.
  { rewrite (extract_os_first d _ _ Hl). simpl.
    split_and!; intros; try done; exfalso; intuition congruence. }
  next_keyword Hl E3.
  { rewrite (extract_os_first d _ _ Hl). simpl.
    split_and!; intros; try done; exfalso; intuition congruence. }
  next_keyword Hl E4.
  { rewrite (extract_os_first d _ _ Hl). simpl.
    split_and!; intros; try done; exfalso; intuition congruence. }
  next_keyword Hl E5.
  { rewrite (extract_os_first d _ _ Hl). simpl.
    split_and!; intros; try done; exfalso; intuition congruence. }
  next_keyword Hl E6.
  { rewrite (extract_os_first d _ _ Hl). simpl.
    split_and!; intros; try done; exfalso; intuition congruence. }
  next_keyword Hl E7.
  { rewrite (extract_os_first d _ _ Hl). simpl.
    split_and!; intros; try done; exfalso; intuition congruence. }
  rewrite filter_nil in Hl. simpl in Hl.
  rewrite (extract_os_absent d Hl).
  split_and!; intros; try done; exfalso; intuition congruence.
Qed.

Lemma keyword_of_azure_function : keyword_of "serverless" "azure function".
Proof. eexists. split; [do 7 right; left|]. member. Qed.

Lemma keyword_of_provider k :
  k ∈ ["aws"; "amazon web services"; "azure"; "microsoft azure";
       "gcp"; "google cloud"; "google cloud platform"] →
  keyword_of "provider" k.
Proof. intros Hk. eexists. split; [apply provider_entry|done]. Qed.

(** X5. A keyword that holds another keyword as a whole word brings it
    along in [detect_intents]: when the serverless list holds azure
    function, the provider list holds azure, and [normalize_provider]
    answers aws or azure; when the provider list holds google cloud
    platform it also holds google cloud; a denied azure function negates
    both serverless and provider. *)
Theorem keyword_inside_keyword sentence :
  ∃ d, detect_intents init sentence = Ok d ∧
    ((∃ l, categories d !! "serverless" = Some l ∧ "azure function" ∈ l) →
     (∃ l, categories d !! "provider" = Some l ∧ "azure" ∈ l) ∧
     (normalize_provider d = Ok (Some "aws") ∨
      normalize_provider d = Ok (Some "azure"))) ∧
    ((∃ l, categories d !! "provider" = Some l ∧
           "google cloud platform" ∈ l) →
     ∃ l, categories d !! "provider" = Some l ∧ "google cloud" ∈ l) ∧
    (denied (lower (chars sentence)) "azure function" →
     "serverless" ∈ negated_categories d ∧
     "provider" ∈ negated_categories d).
Proof.
  set (sl := lower (chars sentence)).
  destruct (affirmed_prefix "azure function" "azure" (chars " function") sl)
    as [Haz Haz']; [done..|].
  destruct (affirmed_prefix "google cloud platform" "google cloud"
              (chars " platform") sl) as [Hgc _]; [done..|].
  destruct (detect_meaning sentence) as (d & Hd & Hcats & Hnegs).
  fold sl in Hcats, Hnegs.
  exists d. split_and!; [done|..].
  - intros [_ Haff%Haz]%Hcats.
    assert (∃ l, categories d !! "provider" = Some l ∧ "azure" ∈ l)
      as (l & Hl & Hin).
    { apply Hcats. split; [apply keyword_of_provider; member|done]. }
    split; [by exists l|].
    destruct (detect_init sentence) as (d' & Hd' & _ & _ & Hcats' & _).
    rewrite Hd in Hd'. injection Hd' as <-.
    pose proof (Hcats' _ _ provider_entry) as Hl'. fold sl in Hl'.
    unfold affirmed_keywords in Hl'. simpl in Hl'.
    next_keyword Hl' E1.
    { left. by rewrite (normalize_provider_first d _ _ Hl'). }
    next_keyword Hl' E2.
    { left. by rewrite (normalize_provider_first d _ _ Hl'). }
    next_keyword Hl' E3.
    { right. by rewrite (normalize_provider_first d _ _ Hl'). }
    exfalso. apply E3. by apply (affirmed_provider sl "azure"); [member|].
  - intros [_ Haff%Hgc]%Hcats. apply Hcats.
    split; [apply keyword_of_provider; member|done].
  - intros Hden. split; apply Hnegs.
    + exists "azure function". split; [apply keyword_of_azure_function|done].
    + exists "azure". split; [apply keyword_of_provider; member|by apply Haz'].
Qed.

(** ** Negation needs a cue before the keyword *)

Lemma split_from_inside tok t w :
  w ∈ split_from tok t →
  ∃ pre post, tok ++ t = pre ++ w ++ post ∧
              word_opt (last pre) = false ∧ word_opt (head post) = false.
Proof.
  revert tok. induction t as [|c t IH]; intros tok; simpl.
  - destruct tok as [|a tok]; [by intros ?%elem_of_nil|].
    intros ->%list_elem_of_singleton. exists [], []. by rewrite !app_nil_r.
  - destruct (is_space c) eqn:Hc.
    + assert (w ∈ split_from [] t →
              ∃ pre post, tok ++ c :: t = pre ++ w ++ post ∧
                word_opt (last pre) = false ∧ word_opt (head post) = false)
        as Hrest.
      { intros (pre & post & Heq & Hb1 & Hb2)%IH. simpl in Heq.
        exists (tok ++ c :: pre), post. rewrite Heq.
        rewrite <- !(assoc_L (++)). split_and!; [done| |done].
        rewrite last_app, last_cons. destruct (last pre); [done|].
        simpl. by apply is_space_not_word. }
      destruct tok as [|a tok]; [done|].
      intros [->|Hw]%elem_of_cons; [|by apply Hrest].
      exists [], (c :: t). split_and!; [done..|].
      simpl. by apply is_space_not_word.
    + intros (pre & post & Heq & ?)%IH. exists pre, post.
      by rewrite <- Heq, <- (assoc_L (++)).
Qed.

Lemma flanked_inside ic cue t pre w post :
  t = pre ++ w ++ post →
  word_opt (last pre) = false → word_opt (head post) = false →
  flanked ic cue w → flanked ic cue t.
Proof.
  intros -> Hpre Hpost (p1 & mid & p2 & -> & Hmid & Hb1 & Hb2).
  exists (pre ++ p1), mid, (p2 ++ post).
  rewrite <- !(assoc_L (++)). split_and!; [done..| |].
  - rewrite last_app. by destruct (last p1).
  - rewrite head_app. by destruct (head p2).
Qed.

Lemma has_negation_cue t pos :
  has_negation t pos = true →
  ∃ cue, cue ∈ negation_cues ∧ flanked true cue (slice_to pos t).
Proof.
  intros (d & w & _ & Hw & Hcue)%has_negation_tokens.
  apply negation_in_word_occurs in Hcue as (cue & Hin & Hocc).
  exists cue. split; [done|].
  pose proof negation_cues_word_ends as Hends.
  rewrite Forall_forall in Hends.
  apply (occurs_flanked true cue w (Hends cue Hin)) in Hocc.
  destruct d as [|i]; [done|]. simpl in Hw.
  apply list_elem_of_lookup_2, elem_of_reverse, split_from_inside in Hw
    as (pre & post & Heq & ? & ?).
  by apply (flanked_inside true cue _ pre w post).
Qed.

Lemma denied_cue c k sl :
  keyword_of c k → denied sl k →
  ∃ cue, cue ∈ negation_cues ∧ flanked true cue sl.
Proof.
  intros (data & Hin & Hk) (n & Hocc & Hneg).
  apply has_negation_cue in Hneg as (cue & Hcue & Hfl).
  exists cue. split; [done|].
  destruct Hocc as (pre & mid & post & -> & <- & Hmid & Hb1 & _).
  unfold slice_to in Hfl.
  rewrite (proj2 (Z.ltb_ge _ _)), Nat2Z.id, take_app_length in Hfl by lia.
  destruct Hfl as (p1 & m & p2 & -> & Hm & Hf1 & Hf2).
  exists p1, m, (p2 ++ mid ++ post).
  rewrite <- !(assoc_L (++)). split_and!; [done..|].
  destruct p2 as [|a p2]; [|done]. exfalso.
  (* the cue would end where the keyword starts *)
  pose proof negation_cues_word_ends as Hends.
  rewrite Forall_forall in Hends.
  destruct (word_ends_boundaries true k (p1 ++ m ++ []) mid post
              (keyword_word_ends c data k Hin Hk) Hmid) as [H1 _].
  apply H1 in Hb1. rewrite app_nil_r, last_app in Hb1.
  pose proof (Hends cue Hcue) as [_ Hl]%andb_true_iff.
  rewrite <- (text_eq_last true m cue Hm) in Hl.
  destruct (last m); simpl in *; [congruence|done].
Qed.

(** X8. [has_negation] answers True only when a cue word of
    [NEGATION_PATTERNS] stands, with no word character before or after
    it, in the text before the position.  So a sentence in which no cue
    stands that way has no negated category in [detect_intents], and
    [validate_intent] accepts it exactly when some category was found. *)
Theorem negation_needs_a_cue :
  (∀ t pos, has_negation t pos = true →
            ∃ cue, cue ∈ negation_cues ∧ flanked true cue (slice_to pos t)) ∧
  (∀ sentence,
     (∀ cue, cue ∈ negation_cues →
             ¬ flanked true cue (lower (chars sentence))) →
     ∃ d, detect_intents init sentence = Ok d ∧
          negated_categories d = ∅ ∧
          (validate_intent d = true ↔ categories d ≠ ∅)).
Proof.
  split; [apply has_negation_cue|].
  intros sentence Hnone.
  destruct (detect_meaning sentence) as (d & Hd & _ & Hnegs).
  assert (negated_categories d = ∅) as Hempty.
  { apply elem_of_equiv_empty_L. intros c (k & Hk & Hden)%Hnegs.
    destruct (denied_cue c k _ Hk Hden) as (cue & Hcue & Hfl).
    by apply (Hnone cue). }
  exists d. split_and!; [done..|].
  rewrite validate_intent_true, Hempty. split; [by intros [? _]|].
  intros ?. split; [done|]. intros c _. apply not_elem_of_empty.
Qed.

Lemma no_cue_check t :
  negation_in_word NEGATION_PATTERNS t = false →
  ∀ cue, cue ∈ negation_cues → ¬ flanked true cue t.
Proof.
  intros Hfalse cue Hcue Hfl.
  assert (negation_in_word NEGATION_PATTERNS t = true) as Htrue; [|congruence].
  apply negation_in_word_occurs. exists cue. split; [done|].
  pose proof negation_cues_word_ends as Hends.
  rewrite Forall_forall in Hends. by apply occurs_flanked; [apply Hends|].
Qed.

Lemma negation_needs_a_cue_witness :
  ∃ d, detect_intents init "Create a VPC with two subnets" = Ok d ∧
       negated_categories d = ∅ ∧
       (validate_intent d = true ↔ categories d ≠ ∅).
Proof.
  apply (proj2 negation_needs_a_cue "Create a VPC with two subnets").
  apply no_cue_check. by vm_compute.
Defined.

(** ** Text added after a sentence *)

Lemma chars_app s1 s2 : chars (s1 +:+ s2) = chars s1 ++ chars s2.
Proof. induction s1 as [|c s1 IH]; simpl; [done|]. by rewrite <- IH. Qed.

Lemma head_extend (l rest : text) :
  word_opt (head rest) = false →
  word_opt (head (l ++ rest)) = word_opt (head l).
Proof. intros Hr. by destruct l. Qed.

Lemma occurs_at_extend ic k t rest n :
  word_opt (head rest) = false →
  occurs_at ic k t n → occurs_at ic k (t ++ rest) n.
Proof.
  intros Hr (pre & mid & post & -> & Hlen & Hmid & Hb1 & Hb2).
  exists pre, mid, (post ++ rest).
  rewrite <- !(assoc_L (++)). split_and!; [done..| |].
  - unfold boundary in *. rewrite (assoc_L (++) mid), head_extend; done.
  - unfold boundary in *. by rewrite head_extend.
Qed.

Lemma has_negation_extend t rest n :
  n ≤ length t →
  has_negation (t ++ rest) (Z.of_nat n) = has_negation t (Z.of_nat n).
Proof.
  intros Hn. unfold has_negation, slice_to.
  rewrite (proj2 (Z.ltb_ge _ _)), Nat2Z.id by lia.
  by rewrite take_app_le.
Qed.

Lemma affirmed_extend k t rest :
  word_opt (head rest) = false →
  (affirmed t k → affirmed (t ++ rest) k) ∧
  (denied t k → denied (t ++ rest) k).
Proof.
  intros Hr. split; intros (n & Hocc & Hneg); exists n;
    (split; [by apply occurs_at_extend|]);
    rewrite has_negation_extend; [done| |done|];
    by apply (occurs_at_le true k).
Qed.

(** X9. Text added after a sentence takes nothing away: when [s2] is
    empty or starts with a character that is no word character, every
    keyword that [detect_intents] lists for a category of [s1] is listed
    for that category of [s1 + s2], and every category negated for [s1]
    is negated for [s1 + s2]. *)
Theorem detection_grows (s1 s2 : string) :
  word_opt (head (chars s2)) = false →
  ∃ d1 d2,
    detect_intents init s1 = Ok d1 ∧
    detect_intents init (s1 +:+ s2) = Ok d2 ∧
    (∀ c l1, categories d1 !! c = Some l1 →
       ∃ l2, categories d2 !! c = Some l2 ∧ l1 ⊆ l2) ∧
    negated_categories d1 ⊆ negated_categories d2.
Proof.
  intros Hs2.
  destruct (detect_meaning s1) as (d1 & Hd1 & Hcats1 & Hnegs1).
  destruct (detect_meaning (s1 +:+ s2)) as (d2 & Hd2 & Hcats2 & Hnegs2).
  rewrite chars_app in Hcats2, Hnegs2. unfold lower in Hcats2, Hnegs2.
  rewrite fmap_app in Hcats2, Hnegs2. fold (lower (chars s1)) in *.
  fold (lower (chars s2)) in *.
  assert (word_opt (head (lower (chars s2))) = false) as Hlow.
  { destruct (chars s2) as [|c r]; [done|]. simpl in *.
    by rewrite is_word_lower. }
  destruct (detect_init s1) as (d1' & Hd1' & _ & _ & Hentry & Hother & _).
  rewrite Hd1 in Hd1'. injection Hd1' as <-.
  exists d1, d2. split_and!; [done..| |].
  - intros c l1 Hl1.
    assert (∃ k, k ∈ l1) as [k0 Hk0].
    { destruct l1 as [|k l1]; [|exists k; left].
      destruct (decide (c ∈ INTENT_CATEGORIES.*1)) as [Hc|Hc].
      - apply list_elem_of_fmap in Hc as ([c' data] & -> & Hin).
        simpl in *. rewrite (Hentry c' data Hin) in Hl1.
        by destruct (affirmed_keywords _ data).
      - by rewrite (Hother c Hc) in Hl1. }
    assert (∃ l2, categories d2 !! c = Some l2) as [l2 Hl2].
    { destruct (proj1 (Hcats1 c k0)) as [Hkw Haff]; [by exists l1|].
      destruct (proj2 (Hcats2 c k0)) as (l2 & Hl2 & _); [|by exists l2].
      split; [done|]. by apply affirmed_extend. }
    exists l2. split; [done|]. intros k Hk.
    destruct (proj1 (Hcats1 c k)) as [Hkw Haff]; [by exists l1|].
    destruct (proj2 (Hcats2 c k)) as (l2' & Hl2' & Hin).
    { split; [done|]. by apply affirmed_extend. }
    rewrite Hl2 in Hl2'. by injection Hl2' as <-.
  - intros c (k & Hkw & Hden)%Hnegs1. apply Hnegs2. exists k.
    split; [done|]. by apply affirmed_extend.
Qed.

Lemma detection_grows_witness :
  ∃ d1 d2,
    detect_intents init "Deploy a server" = Ok d1 ∧
    detect_intents init ("Deploy a server" +:+ ", no database") = Ok d2 ∧
    (∀ c l1, categories d1 !! c = Some l1 →
       ∃ l2, categories d2 !! c = Some l2 ∧ l1 ⊆ l2) ∧
    negated_categories d1 ⊆ negated_categories d2.
Proof. apply (detection_grows "Deploy a server" ", no database"). reflexivity. Defined.

(** ** The action of a sentence *)

Lemma action_verbs_of a verbs :
  (a, verbs) ∈ ACTION_VERBS →
  (a, verbs) = ("create", ["create"; "deploy"; "launch"; "provision";
                           "setup"; "set up"; "add"; "build"]) ∨
  (a, verbs) = ("delete", ["delete"; "remove"; "destroy"; "terminate";
                           "tear down"]) ∨
  (a, verbs) = ("modify", ["modify"; "update"; "change"; "edit";
                           "configure"]) ∨
  (a, verbs) = ("query", ["show"; "list"; "describe"; "get"; "what";
                          "which"]).
Proof.
  unfold ACTION_VERBS. intros Hin.
  repeat (apply elem_of_cons in Hin as [->|Hin]; [by auto|]).
  by apply elem_of_nil in Hin.
Qed.

Lemma action_named_spec sl a verbs :
  (a, verbs) ∈ ACTION_VERBS →
  action_named sl a ↔ verb_found verbs sl = true.
Proof.
  intros Hin. rewrite verb_found_spec. split.
  - intros (verbs' & v & Hin' & Hv & Hfl).
    assert (verbs' = verbs) as ->.
    { apply action_verbs_of in Hin as [|[|[|]]];
        apply action_verbs_of in Hin' as [|[|[|]]]; congruence. }
    exists v. split; [done|].
    by apply occurs_flanked; [apply (verb_word_ends a verbs)|].
  - intros (v & Hv & Hocc). exists verbs, v. split_and!; [done..|].
    by apply occurs_flanked in Hocc; [|apply (verb_word_ends a verbs)].
Qed.

(** X10. The decision table of [extract_action], where an action is
    named when one of its verbs of [ACTION_VERBS] stands in the lowered
    sentence with no word character before or after it (the sentence is
    lowered first and the pattern is searched without [re.IGNORECASE]): create
    when create is named or none of delete, modify, query is; delete when
    it is named and create is not; modify when it is named and neither
    create nor delete is; query when it alone is named.  The answer is
    always one of the four. *)
Theorem extract_action_table sentence :
  let named := action_named (lower (chars sentence)) in
  let action := extract_action init sentence in
  (action = "create" ↔
   named "create" ∨ ¬ named "delete" ∧ ¬ named "modify" ∧ ¬ named "query") ∧
  (action = "delete" ↔ ¬ named "create" ∧ named "delete") ∧
  (action = "modify" ↔
   ¬ named "create" ∧ ¬ named "delete" ∧ named "modify") ∧
  (action = "query" ↔
   ¬ named "create" ∧ ¬ named "delete" ∧ ¬ named "modify" ∧ named "query") ∧
  action ∈ ["create"; "delete"; "modify"; "query"].
Proof.
  intros named action. unfold named, action.
  rewrite extract_action_init.
  rewrite (action_named_spec _ "create" _ ltac:(left)).
  rewrite (action_named_spec _ "delete" _ ltac:(right; left)).
  rewrite (action_named_spec _ "modify" _ ltac:(do 2 right; left)).
  rewrite (action_named_spec _ "query" _ ltac:(do 3 right; left)).
  unfold ACTION_VERBS. cbn [action_found].
  repeat match goal with
  | |- context [verb_found ?vs ?t] =>
      let b := fresh "b" in
      generalize (verb_found vs t); intros b
  end.
  destruct b, b0, b1, b2; simpl;
    (split_and!; [..|member]); split; intros; try done;
    intuition congruence.
Qed.
